(** * PyTorchUtils [train.py]: a shallow embedding of the training driver

    The development follows [src/train.py] function by function.  Python
    dictionaries are finite maps ([gmap]) with string keys, exceptions and the
    unbounded [while] loop of [fetch_nonempty_sample] are an explicit outcome,
    and every call to an external collaborator (sampler, model, optimizer,
    monitor, clock, console, disk) is recorded in an event trace.

    Tensor scalars are floating-point numbers in the program; here they are
    idealised as rationals. *)

From stdpp Require Import gmap strings list fin_maps pretty.
From Stdlib Require Import Ascii QArith Qround Lqa FunctionalExtensionality.

Set Warnings "-clear-no-such-hyp".
Local Open Scope Z_scope.

(** ** Exceptions and outcomes *)

Inductive exn :=
| AssertionError (msg : string)
| IndexError
| KeyError (key : string)
| TypeError
| ZeroDivisionError
| AttributeError (attr : string)
| UnboundLocalError (var : string)
| SpecificationError
| LookupError (metric phase : string).

(** [Diverge] stands for a [while] loop that used up its fuel. *)
Inductive outcome (A : Type) :=
| Ok (a : A)
| Raise (e : exn)
| Diverge.
Arguments Ok {A} a.
Arguments Raise {A} e.
Arguments Diverge {A}.

#[global] Instance outcome_ret : MRet outcome := fun A a => Ok a.
#[global] Instance outcome_fmap : FMap outcome := fun A B f m =>
  match m with
  | Ok a => Ok (f a)
  | Raise e => Raise e
  | Diverge => Diverge
  end.
#[global] Instance outcome_bind : MBind outcome := fun A B f m =>
  match m with
  | Ok a => f a
  | Raise e => Raise e
  | Diverge => Diverge
  end.

(** ** Arrays, variables, samples *)

Record Tensor := mkTensor { tsize : list nat; tdata : list Q }.

(** [t.sum()] *)
Definition tsum (t : Tensor) : Q := fold_right Qplus 0%Q (tdata t).

(** [np.prod(t.size())] *)
Definition numel (t : Tensor) : nat := fold_right Nat.mul 1%nat (tsize t).

(** [np.expand_dims(t, axis=0)] *)
Definition expand_dims (t : Tensor) : Tensor := mkTensor (1%nat :: tsize t) (tdata t).

Abbreviation Sample := (gmap string Tensor).

(** How a torch [Variable] was created by [utils.make_variable]. *)
Inductive grad_mode := RequiresGrad (b : bool) | Volatile.

Record Var := mkVar { var_data : Tensor; var_mode : grad_mode }.

(** Modelled from the spec: [utils.make_variable] is not part of the sources;
    it wraps an array into a [Variable] with the given gradient mode. *)
Definition make_variable (t : Tensor) (mode : grad_mode) : Var := mkVar t mode.

(** Python list indexing [l[k]], negative positions counting from the end. *)
Definition py_getitem {A} (l : list A) (k : Z) : outcome A :=
  let n := Z.of_nat (length l) in
  let k' := if k <? 0 then k + n else k in
  if (0 <=? k') && (k' <? n) then
    match l !! Z.to_nat k' with
    | Some x => Ok x
    | None => Raise IndexError
    end
  else Raise IndexError.

(** Python list indexing at an [enumerate] counter. *)
Definition py_nth {A} (l : list A) (i : nat) : outcome A :=
  match l !! i with
  | Some x => Ok x
  | None => Raise IndexError
  end.

(** Python dictionary lookup [d[k]]. *)
Definition py_lookup {A} (d : gmap string A) (k : string) : outcome A :=
  match d !! k with
  | Some x => Ok x
  | None => Raise (KeyError k)
  end.

(** Modelled from the spec: the class [utils.SampleSpec] is not part of the
    sources.  Per the spec (3, 4.1) it holds the ordered input, label and mask
    names obtained from the field-name set of one sample, and maps a label
    to the position of its mask.  The label names are field names of one
    sample, hence pairwise distinct. *)
Record SampleSpec := mkSampleSpec {
  get_inputs : list string;
  get_labels : list string;
  get_masks : list string;
  has_mask : string -> bool;
  get_mask_index : string -> Z;
  labels_distinct : NoDup get_labels
}.

(** ** Configuration *)

(** The values of the options in [params]: the integers and strings that
    the code reads from it.  Options of other Python types are not
    represented. *)
Inductive pyval := PInt (z : Z) | PStr (s : string).

Definition required_params : list string :=
  ["max_iter"; "test_intv"; "test_iter"; "avgs_intv"; "chkpt_intv"; "expt_dir"]%string.

Definition params_defined (params : gmap string pyval) : bool :=
  let defined_keys : gset string := dom params in
  (fix go (l : list string) : bool :=
     match l with
     | [] => true
     | param :: rest => if bool_decide (param ∈ defined_keys) then go rest else false
     end) required_params.

(** ** Loss evaluation *)

(** The loss function is called with two or with three arguments; the optional
    third argument is the mask. *)
Definition LossFn := Var -> Var -> option Var -> Q.

Abbreviation Dict := (gmap string Q).

Fixpoint eval_error_loop (loss_fn : LossFn) (sample_spec : SampleSpec)
    (label_names : list string) (labels masks : list Var)
    (i : nat) (preds : list Var) (losses nmsks : Dict) : outcome (Dict * Dict) :=
  match preds with
  | [] => Ok (losses, nmsks)
  | pred :: preds' =>
      label ← py_nth labels i;
      label_name ← py_nth label_names i;
      if has_mask sample_spec label_name then
        mask ← py_getitem masks (get_mask_index sample_spec label_name);
        eval_error_loop loss_fn sample_spec label_names labels masks (S i) preds'
          (<[label_name := loss_fn pred label (Some mask)]> losses)
          (<[label_name := tsum (var_data mask)]> nmsks)
      else
        eval_error_loop loss_fn sample_spec label_names labels masks (S i) preds'
          (<[label_name := loss_fn pred label None]> losses)
          (<[label_name := inject_Z (Z.of_nat (numel (var_data label)))]> nmsks)
  end.

Definition eval_error (preds labels masks : list Var) (loss_fn : LossFn)
    (sample_spec : SampleSpec) : outcome (Dict * Dict) :=
  let label_names := get_labels sample_spec in
  if negb (length label_names =? length labels)%nat then
    Raise (AssertionError "Mismatched labels and label names")
  else if negb (length preds =? length labels)%nat then
    Raise (AssertionError "Mismatched preds and labels")
  else
    eval_error_loop loss_fn sample_spec label_names labels masks 0 preds ∅ ∅.

(** ** The statistics monitor *)

(** Modelled from the spec: the class [utils.LearningMonitor] is not part of
    the sources.  Per the spec (3, 4.5) it keeps, for every phase and metric,
    a running numerator and denominator and a history of flushed averages;
    [compute_avgs] flushes every metric of the phase whose denominator is
    non-zero and resets its accumulators, [get_last_value] reads the most
    recent history entry. *)
Record PhaseStats := mkPhaseStats {
  nums : Dict;
  denoms : Dict;
  history : gmap string (list (Z * Q))
}.

Definition empty_stats : PhaseStats := mkPhaseStats ∅ ∅ ∅.

Abbreviation LearningMonitor := (gmap string PhaseStats).

Definition phase_stats (mon : LearningMonitor) (phase : string) : PhaseStats :=
  default empty_stats (mon !! phase).

Definition accumulate (acc d : Dict) : Dict :=
  union_with (fun a b => Some (a + b)%Q) acc d.

Definition add_to_num (d : Dict) (phase : string) (mon : LearningMonitor) : LearningMonitor :=
  let ps := phase_stats mon phase in
  <[phase := mkPhaseStats (accumulate (nums ps) d) (denoms ps) (history ps)]> mon.

Definition add_to_denom (d : Dict) (phase : string) (mon : LearningMonitor) : LearningMonitor :=
  let ps := phase_stats mon phase in
  <[phase := mkPhaseStats (nums ps) (accumulate (denoms ps) d) (history ps)]> mon.

Definition flush_metric (i : Z) (ps : PhaseStats) (kd : string * Q) : PhaseStats :=
  if Qeq_bool kd.2 0 then ps
  else mkPhaseStats (<[kd.1 := 0%Q]> (nums ps)) (<[kd.1 := 0%Q]> (denoms ps))
         (<[kd.1 := default [] (history ps !! kd.1)
                      ++ [(i, (default 0 (nums ps !! kd.1) / kd.2)%Q)]]> (history ps)).

Definition compute_avgs (i : Z) (phase : string) (mon : LearningMonitor) : LearningMonitor :=
  let ps := phase_stats mon phase in
  <[phase := fold_left (flush_metric i) (map_to_list (denoms ps)) ps]> mon.

Definition get_last_value (metric phase : string) (mon : LearningMonitor) : outcome Q :=
  match history (phase_stats mon phase) !! metric ≫= last with
  | Some iv => Ok iv.2
  | None => Raise (LookupError metric phase)
  end.

(** ** Effects *)

Inductive PrintMsg :=
| MsgBegin
| MsgIter (i : Z) (avg_losses : Dict) (avg_time : Q)
| MsgSave (i : Z)
| MsgTest (iter_num : Z) (avg_losses : Dict) (avg_time : Q).

(** One constructor per call to an external collaborator. *)
Inductive Event :=
| EvNewMonitor
| EvGet (sampler : nat)
| EvTime
| EvForward (inputs : list Var)
| EvZeroGrad
| EvBackward (total_loss : Q)
| EvStep
| EvAddToNum (d : Dict) (phase : string)
| EvAddToDenom (d : Dict) (phase : string)
| EvComputeAvgs (i : Z) (phase : string)
| EvPrint (msg : PrintMsg)
| EvTorchSave (fname : string)
| EvMonitorSave (fname : string) (i : Z).

(** The collaborators whose code is outside the program: the model (its
    output depends on its inputs and on the parameters, which change only at
    an optimizer step), the loss function, the wall clock (indexed by the number
    of readings) and the constructor of [utils.SampleSpec]. *)
Record Env := mkEnv {
  model : nat -> list Var -> list Var;
  loss_fn : LossFn;
  clock : nat -> Q;
  SampleSpec_new : gset string -> outcome SampleSpec
}.

(** The mutable state: for each sampler object the samples it has yet to
    yield, the number of clock readings and of optimizer steps taken, and the
    one [LearningMonitor] object. *)
Record World := mkWorld {
  samplers : nat -> nat -> Sample;
  ticks : nat;
  nsteps : nat;
  monitor : LearningMonitor
}.

Definition M (A : Type) : Type := World -> outcome A * World * list Event.

#[global] Instance M_ret : MRet M := fun A a w => (Ok a, w, []).
#[global] Instance M_bind : MBind M := fun A B f m w =>
  match m w with
  | (Ok a, w1, e1) =>
      match f a w1 with
      | (r, w2, e2) => (r, w2, e1 ++ e2)
      end
  | (Raise e, w1, e1) => (Raise e, w1, e1)
  | (Diverge, w1, e1) => (Diverge, w1, e1)
  end.

Definition lift {A} (o : outcome A) : M A := fun w => (o, w, []).
Definition raise {A} (e : exn) : M A := lift (Raise e).
Definition emit (ev : Event) : M unit := fun w => (Ok tt, w, [ev]).
Definition get_monitor : M LearningMonitor := fun w => (Ok (monitor w), w, []).

(** A method call [ev] on the monitor that changes its state by [f]. *)
Definition with_monitor (f : LearningMonitor -> LearningMonitor) (w : World) : World :=
  mkWorld (samplers w) (ticks w) (nsteps w) (f (monitor w)).
Definition update_monitor (f : LearningMonitor -> LearningMonitor) (ev : Event) : M unit :=
  fun w => (Ok tt, with_monitor f w, [ev]).

(** [utils.LearningMonitor()] *)
Definition new_monitor : M unit := update_monitor (fun _ => ∅) EvNewMonitor.

(** The world once [sampler] has yielded its next sample. *)
Definition advance (sampler : nat) (w : World) : World :=
  mkWorld (fun s => if decide (s = sampler) then fun n => samplers w s (S n) else samplers w s)
          (ticks w) (nsteps w) (monitor w).

(** [sampler.get()] *)
Definition sampler_get (sampler : nat) : M Sample := fun w =>
  (Ok (samplers w sampler 0%nat), advance sampler w, [EvGet sampler]).

(** [time.time()] *)
Definition tick (w : World) : World :=
  mkWorld (samplers w) (S (ticks w)) (nsteps w) (monitor w).
Definition time_time (env : Env) : M Q := fun w =>
  (Ok (clock env (ticks w)), tick w, [EvTime]).

(** [model( *inputs )] *)
Definition forward (env : Env) (inputs : list Var) : M (list Var) := fun w =>
  (Ok (model env (nsteps w) inputs), w, [EvForward inputs]).

(** [optimizer.step()] *)
Definition step (w : World) : World :=
  mkWorld (samplers w) (ticks w) (S (nsteps w)) (monitor w).
Definition optimizer_step : M unit := fun w => (Ok tt, step w, [EvStep]).

(** [round(x, 5)]: to five decimals, halves away from zero. *)
Definition round5 (x : Q) : Q :=
  let s := (x * inject_Z 100000)%Q in
  if Qle_bool 0 s then Qmake (Qfloor (s + (1 # 2))) 100000
  else Qmake (Qceiling (s - (1 # 2))) 100000.

(** [{ k : round(monitor.get_last_value(k, phase), 5) for k in losses.keys() }] *)
Definition avg_losses_of (losses : Dict) (phase : string) : M Dict :=
  mon ← get_monitor;
  kvs ← lift (mapM (fun k => v ← get_last_value k phase mon; mret (k, round5 v))
                   (map_to_list losses).*1);
  mret (list_to_map kvs).

(** ** [train.py] *)

Definition log_elapsed_time (elapsed_time : Q) (phase : string) : M unit :=
  update_monitor (add_to_num {["iter_time" := elapsed_time]} phase)
                 (EvAddToNum {["iter_time" := elapsed_time]} phase);;
  update_monitor (add_to_denom {["iter_time" := 1%Q]} phase)
                 (EvAddToDenom {["iter_time" := 1%Q]} phase).

(** The two dictionaries are compared by their keys; the values are already
    scalars here, so [v.data[0]] is the identity. *)
Definition log_errors (losses nmsks : Dict) (phase : string) : M unit :=
  if bool_decide (dom losses = dom nmsks) then
    update_monitor (add_to_num losses phase) (EvAddToNum losses phase);;
    update_monitor (add_to_denom nmsks phase) (EvAddToDenom nmsks phase)
  else raise (AssertionError "Mismatched losses and nmsks").

(** [sum(values)]: the integer [0] plus each value in turn. *)
Definition py_sum (values : list Q) : Q := fold_left Qplus values 0%Q.

(** With no loss at all, [sum] returns the integer [0], which has no
    [backward] method. *)
Definition update_model (losses : Dict) : M unit :=
  emit EvZeroGrad;;
  match (map_to_list losses).*2 with
  | [] => raise (AttributeError "backward")
  | values =>
      emit (EvBackward (py_sum values));;
      optimizer_step
  end.

(** [path.endswith('/')] *)
Fixpoint ends_with_slash (path : string) : bool :=
  match path with
  | EmptyString => false
  | String c EmptyString => bool_decide (c = "/"%char)
  | String _ rest => ends_with_slash rest
  end.

(** [os.path.join(a, b)] for a relative component [b]. *)
Definition path_join (a b : string) : string :=
  if bool_decide (a = "") then b
  else if ends_with_slash a then a +:+ b
  else a +:+ "/" +:+ b.

Definition save_checkpoint (i : Z) (base_dir : pyval) : M unit :=
  match base_dir with
  | PInt _ => raise (AttributeError "endswith")
  | PStr dir =>
      let ckpt_fname := path_join (path_join dir "models") ("model" +:+ pretty i +:+ ".ckpt") in
      emit (EvTorchSave ckpt_fname);;
      let stats_fname := path_join (path_join dir "logs") ("stats_" +:+ pretty i +:+ ".h5") in
      emit (EvMonitorSave stats_fname i)
  end.

(** Modelled from the spec: [utils.masks_not_empty] is not part of the
    sources.  Per the spec (4.2, 8) the fetch loop asks for another sample
    until no named mask sums to zero, so the guard of that loop holds exactly
    when some named mask of the sample sums to zero. *)
Fixpoint masks_not_empty (sample : Sample) (masks : list string) : outcome bool :=
  match masks with
  | [] => Ok false
  | name :: rest =>
      mask ← py_lookup sample name;
      if Qeq_bool (tsum mask) 0 then Ok true else masks_not_empty sample rest
  end.

(** The [while] loop of [fetch_nonempty_sample], with at most [fuel] further
    requests. *)
Fixpoint fetch_loop (fuel : nat) (sampler : nat) (masks : list string)
    (sample : Sample) : M Sample :=
  again ← lift (masks_not_empty sample masks);
  if again : bool then
    match fuel with
    | O => lift Diverge
    | S fuel' =>
        sample' ← sampler_get sampler;
        fetch_loop fuel' sampler masks sample'
    end
  else mret sample.

Definition fetch_nonempty_sample (fuel : nat) (sampler : nat) (masks : list string) : M Sample :=
  sample ← sampler_get sampler;
  sample ← fetch_loop fuel sampler masks sample;
  mret (expand_dims <$> sample).

Definition make_variables (sample : Sample) (sample_spec : SampleSpec) (phase : string)
    : outcome (list Var * list Var * list Var) :=
  let inputs := get_inputs sample_spec in
  let labels := get_labels sample_spec in
  let masks := get_masks sample_spec in
  let vars mode := mapM (fun k => v ← py_lookup sample k; mret (make_variable v mode)) in
  input_vars ←
    (if bool_decide (phase = "train") then Some <$> vars (RequiresGrad true) inputs
     else if bool_decide (phase = "test") then Some <$> vars Volatile inputs
     else Ok None);
  label_vars ← vars (RequiresGrad false) labels;
  mask_vars ← vars (RequiresGrad false) masks;
  match input_vars with
  | Some input_vars => Ok (input_vars, label_vars, mask_vars)
  | None => Raise (UnboundLocalError "input_vars")
  end.

(** [params[key]] used as an integer. *)
Definition as_int (v : pyval) : outcome Z :=
  match v with
  | PInt z => Ok z
  | PStr _ => Raise TypeError
  end.

Definition param_int (params : gmap string pyval) (key : string) : outcome Z :=
  py_lookup params key ≫= as_int.

(** [i % n] *)
Definition py_mod (i n : Z) : outcome Z :=
  if n =? 0 then Raise ZeroDivisionError else Ok (i `mod` n).

(** [round(monitor.get_last_value("iter_time", phase), 5)] *)
Definition avg_time_of (phase : string) : M Q :=
  mon ← get_monitor;
  v ← lift (get_last_value "iter_time" phase mon);
  mret (round5 v).

(** The body of the [for] loop of [run_validation], run [count] times; the
    loop carries [start] and the variable [losses], unbound before the first
    pass. *)
Fixpoint run_validation_loop (env : Env) (fuel : nat) (sampler : nat)
    (sample_spec : SampleSpec) (mask_names : list string)
    (count : nat) (start : Q) (losses : option Dict) : M (option Dict) :=
  match count with
  | O => mret losses
  | S count' =>
      sample ← fetch_nonempty_sample fuel sampler mask_names;
      '(inputs, labels, masks) ← lift (make_variables sample sample_spec "test");
      preds ← forward env inputs;
      '(losses, nmsks) ← lift (eval_error preds labels masks (loss_fn env) sample_spec);
      log_errors losses nmsks "test";;
      now ← time_time env;
      log_elapsed_time (now - start)%Q "test";;
      start ← time_time env;
      run_validation_loop env fuel sampler sample_spec mask_names count' start (Some losses)
  end.

Definition run_validation (env : Env) (fuel : nat) (sampler : nat) (num_iters : pyval)
    (sample_spec : SampleSpec) (iter_num : Z) : M unit :=
  let mask_names := get_masks sample_spec in
  start ← time_time env;
  n ← lift (as_int num_iters);
  losses ← run_validation_loop env fuel sampler sample_spec mask_names (Z.to_nat n) start None;
  update_monitor (compute_avgs iter_num "test") (EvComputeAvgs iter_num "test");;
  match losses with
  | None => raise (UnboundLocalError "losses")
  | Some losses =>
      avg_losses ← avg_losses_of losses "test";
      avg_time ← avg_time_of "test";
      emit (EvPrint (MsgTest iter_num avg_losses avg_time))
  end.

(** Lines 42-58 of [train]: one training step and its bookkeeping.  Returns
    the losses and the restarted clock. *)
Definition train_step (env : Env) (fuel : nat) (sampler : nat)
    (sample_spec : SampleSpec) (mask_names : list string) (start : Q) : M (Dict * Q) :=
  sample ← fetch_nonempty_sample fuel sampler mask_names;
  '(inputs, labels, masks) ← lift (make_variables sample sample_spec "train");
  preds ← forward env inputs;
  '(losses, nmsks) ← lift (eval_error preds labels masks (loss_fn env) sample_spec);
  update_model losses;;
  log_errors losses nmsks "train";;
  now ← time_time env;
  log_elapsed_time (now - start)%Q "train";;
  start ← time_time env;
  mret (losses, start).

(** Lines 60-63 of [train]. *)
Definition validation_cadence (env : Env) (fuel : nat) (val_sampler : option nat)
    (params : gmap string pyval) (sample_spec : SampleSpec) (i : Z) (start : Q) : M Q :=
  match val_sampler with
  | None => mret start
  | Some val_sampler =>
      test_intv ← lift (param_int params "test_intv");
      r ← lift (py_mod i test_intv);
      if r =? 0 then
        test_iter ← lift (py_lookup params "test_iter");
        run_validation env fuel val_sampler test_iter sample_spec i;;
        time_time env
      else mret start
  end.

(** Lines 65-72 of [train]. *)
Definition averages_cadence (last_iter : Z) (params : gmap string pyval)
    (i : Z) (losses : Dict) : M unit :=
  avgs_intv ← lift (param_int params "avgs_intv");
  r ← lift (py_mod i avgs_intv);
  if (r =? 0) && negb (i =? last_iter) then
    update_monitor (compute_avgs i "train") (EvComputeAvgs i "train");;
    avg_losses ← avg_losses_of losses "train";
    avg_time ← avg_time_of "train";
    emit (EvPrint (MsgIter i avg_losses avg_time))
  else mret tt.

(** Lines 74-76 of [train]. *)
Definition checkpoint_cadence (last_iter : Z) (params : gmap string pyval) (i : Z) : M unit :=
  chkpt_intv ← lift (param_int params "chkpt_intv");
  r ← lift (py_mod i chkpt_intv);
  if (r =? 0) && negb (i =? last_iter) then
    emit (EvPrint (MsgSave i));;
    expt_dir ← lift (py_lookup params "expt_dir");
    save_checkpoint i expt_dir
  else mret tt.

(** One pass through the body of the [for] loop of [train]. *)
Definition train_iteration (env : Env) (fuel : nat) (sampler : nat) (val_sampler : option nat)
    (last_iter : Z) (params : gmap string pyval) (sample_spec : SampleSpec)
    (mask_names : list string) (i : Z) (start : Q) : M Q :=
  '(losses, start) ← train_step env fuel sampler sample_spec mask_names start;
  start ← validation_cadence env fuel val_sampler params sample_spec i start;
  averages_cadence last_iter params i losses;;
  checkpoint_cadence last_iter params i;;
  mret start.

Fixpoint train_loop (env : Env) (fuel : nat) (sampler : nat) (val_sampler : option nat)
    (last_iter : Z) (params : gmap string pyval) (sample_spec : SampleSpec)
    (mask_names : list string) (iters : list Z) (start : Q) : M unit :=
  match iters with
  | [] => mret tt
  | i :: iters' =>
      start ← train_iteration env fuel sampler val_sampler last_iter params
                sample_spec mask_names i start;
      train_loop env fuel sampler val_sampler last_iter params sample_spec mask_names
        iters' start
  end.

(** [train(model, loss_fn, optimizer, sampler, val_sampler, last_iter, **params)] *)
Definition train (env : Env) (fuel : nat) (sampler : nat) (val_sampler : option nat)
    (last_iter : Z) (params : gmap string pyval) : M unit :=
  if params_defined params then
    new_monitor;;
    sample ← sampler_get sampler;
    sample_spec ← lift (SampleSpec_new env (dom sample));
    let mask_names := get_masks sample_spec in
    start ← time_time env;
    emit (EvPrint MsgBegin);;
    max_iter ← lift (param_int params "max_iter");
    train_loop env fuel sampler val_sampler last_iter params sample_spec mask_names
      (seqZ last_iter (max_iter - last_iter)) start
  else raise (AssertionError "Params under-specified").

(** * Vocabulary of the properties *)

(** What [eval_error] stores for the task [label_name]. *)
Definition task_entry (loss_fn : LossFn) (sample_spec : SampleSpec) (masks : list Var)
    (pred label : Var) (label_name : string) (losses nmsks : Dict) : Prop :=
  if has_mask sample_spec label_name then
    ∃ mask, py_getitem masks (get_mask_index sample_spec label_name) = Ok mask
            ∧ losses !! label_name = Some (loss_fn pred label (Some mask))
            ∧ nmsks !! label_name = Some (tsum (var_data mask))
  else
    losses !! label_name = Some (loss_fn pred label None)
    ∧ nmsks !! label_name = Some (inject_Z (Z.of_nat (numel (var_data label)))).

(** Fixtures for the examples: a sample with one input, one label and the
    label's mask, the matching [SampleSpec], and collaborators that always
    succeed. *)
Module Fixture.
Definition t_input : Tensor := mkTensor [2%nat] [1%Q; 2%Q].
Definition t_label : Tensor := mkTensor [3%nat] [1%Q; 0%Q; 1%Q].
Definition t_mask : Tensor := mkTensor [3%nat] [0%Q; 1%Q; 1%Q].
Definition t_zeros : Tensor := mkTensor [3%nat] [0%Q; 0%Q; 0%Q].

Definition good_sample : Sample :=
  <["input" := t_input]> (<["label" := t_label]> (<["label_mask" := t_mask]> ∅)).
Definition empty_sample : Sample :=
  <["input" := t_input]> (<["label" := t_label]> (<["label_mask" := t_zeros]> ∅)).

Definition spec : SampleSpec :=
  mkSampleSpec ["input"]%string ["label"]%string ["label_mask"]%string
    (fun name => bool_decide (name = "label"%string)) (fun _ => 0)
    (NoDup_singleton "label"%string).

Definition loss : LossFn := fun pred label mask =>
  match mask with
  | Some m => tsum (var_data m)
  | None => inject_Z (Z.of_nat (numel (var_data label)))
  end.

Definition env : Env :=
  mkEnv (fun _ inputs => inputs) loss (fun n => inject_Z (Z.of_nat n)) (fun _ => Ok spec).

(** Every sampler alternates between a sample with an empty mask and a
    good one. *)
Definition world : World :=
  mkWorld (fun _ n => if Nat.even n then empty_sample else good_sample) 0 0 ∅.

Definition params (max_iter test_intv test_iter avgs_intv chkpt_intv : Z)
    : gmap string pyval :=
  list_to_map [("max_iter", PInt max_iter); ("test_intv", PInt test_intv);
               ("test_iter", PInt test_iter); ("avgs_intv", PInt avgs_intv);
               ("chkpt_intv", PInt chkpt_intv); ("expt_dir", PStr "expt")]%string.

Definition v_pred : Var := mkVar t_input (RequiresGrad true).
Definition v_label : Var := mkVar t_label (RequiresGrad false).
Definition v_mask : Var := mkVar t_mask (RequiresGrad false).
End Fixture.

(** Every event a computation emits satisfies [P], whatever its outcome. *)
Definition emits {A} (P : Event → Prop) (m : M A) : Prop :=
  ∀ w, Forall P (m w).2.

(** The computation relates the final world to the initial one by [R],
    whatever its outcome. *)
Definition preserves {A} (R : relation World) (m : M A) : Prop :=
  ∀ w, R w (m w).1.2.

(** Total weight of a trace, and computations whose trace weighs at least [k]. *)
Definition tally (wt : Event → Z) (evs : list Event) : Z :=
  foldr (fun e s => wt e + s) 0 evs.

Definition at_least {A} (wt : Event → Z) (k : Z) (m : M A) : Prop :=
  ∀ w, k ≤ tally wt (m w).2.

(** The projection of the trace of every normal completion is [xs]. *)
Definition yields {A X} (π : Event → list X) (xs : list X) (m : M A) : Prop :=
  ∀ w a w' evs, m w = (Ok a, w', evs) → flat_map π evs = xs.

(** A computation confined to the events [P] and to the changes [R] of the
    world. *)
Definition confined {A} (P : Event → Prop) (R : relation World) (m : M A) : Prop :=
  emits P m ∧ preserves R m.

(** Changes of the world that every sampler request and clock reading makes. *)
Class Frame (R : relation World) := {
  frame_preorder :: PreOrder R;
  frame_advance : ∀ sampler w, R w (advance sampler w);
  frame_tick : ∀ w, R w (tick w)
}.

Definition any_change : relation World := fun _ _ => True.

(** The sample examined at the [n]-th test of the loop guard. *)
Definition nth_sample (sampler : nat) (sample : Sample) (w : World) (n : nat) : Sample :=
  match n with
  | O => sample
  | S k => samplers w sampler k
  end.

(** The sum of all task losses, each counted once. *)
Definition unweighted_sum (losses : Dict) : Q :=
  map_fold (fun _ v acc => (v + acc)%Q) 0%Q losses.

(** Changes of the world that any update of the statistics of [phase] makes. *)
Definition tolerates (R : relation World) (phase : string) : Prop :=
  ∀ f, (∀ mon q, q ≠ phase → f mon !! q = mon !! q) → ∀ w, R w (with_monitor f w).

(** The events a validation run may produce: requests to its own sampler,
    clock readings, forward passes on volatile inputs, contributions to the
    ["test"] phase of the monitor, the flush of that phase at [iter_num], and
    the report. *)
Definition validation_event (sampler : nat) (iter_num : Z) (e : Event) : Prop :=
  match e with
  | EvGet s => s = sampler
  | EvTime => True
  | EvForward inputs => Forall (fun v => var_mode v = Volatile) inputs
  | EvAddToNum _ phase | EvAddToDenom _ phase => phase = "test"%string
  | EvComputeAvgs i phase => i = iter_num ∧ phase = "test"%string
  | EvPrint (MsgTest i _ _) => i = iter_num
  | _ => False
  end.

(** The training side of the world: the optimizer steps taken and the
    ["train"] phase of the monitor. *)
Definition train_side_untouched (w w' : World) : Prop :=
  nsteps w' = nsteps w ∧ monitor w' !! "train"%string = monitor w !! "train"%string.

(** The skeleton of a trace: forward passes and calls on the monitor. *)
Inductive Kind :=
| KForward
| KNum (phase : string)
| KDenom (phase : string)
| KFlush (i : Z) (phase : string).

Definition kind (e : Event) : list Kind :=
  match e with
  | EvForward _ => [KForward]
  | EvAddToNum _ phase => [KNum phase]
  | EvAddToDenom _ phase => [KDenom phase]
  | EvComputeAvgs i phase => [KFlush i phase]
  | _ => []
  end.

(** One validation pass: the forward pass, then the losses, the counts and
    the iteration time logged into the ["test"] phase. *)
Definition validation_pass : list Kind :=
  [KForward; KNum "test"; KDenom "test"; KNum "test"; KDenom "test"].

(** The passes of a validation run, with all that they log.  A run of
    [count] passes that starts in world [w], its last clock reading being
    [start], produces the trace [evs] and ends in world [w'].  Each pass keeps
    a sample of its sampler, makes the ["test"] variables of that sample, runs
    the model forward on the inputs, logs the losses and the counts that
    [eval_error] returns for the predictions, reads the clock, logs the time
    since the previous reading as one iteration, and reads the clock again. *)
Inductive validation_passes (env : Env) (fuel sampler : nat) (sample_spec : SampleSpec)
  : nat → Q → World → list Event → World → Prop :=
| passes_done start w : validation_passes env fuel sampler sample_spec 0 start w [] w
| passes_next count start w n w1 sample inputs labels masks losses nmsks evs w' :
    fetch_nonempty_sample fuel sampler (get_masks sample_spec) w
      = (Ok sample, w1, replicate (S n) (EvGet sampler)) →
    make_variables sample sample_spec "test" = Ok (inputs, labels, masks) →
    eval_error (model env (nsteps w) inputs) labels masks (loss_fn env) sample_spec
      = Ok (losses, nmsks) →
    validation_passes env fuel sampler sample_spec count (clock env (S (ticks w)))
      (tick (with_monitor (add_to_denom {["iter_time"%string := 1%Q]} "test")
         (with_monitor
            (add_to_num {["iter_time"%string := (clock env (ticks w) - start)%Q]} "test")
            (tick (with_monitor (add_to_denom nmsks "test")
               (with_monitor (add_to_num losses "test") w1))))))
      evs w' →
    validation_passes env fuel sampler sample_spec (S count) start w
      (replicate (S n) (EvGet sampler)
       ++ [EvForward inputs;
           EvAddToNum losses "test"; EvAddToDenom nmsks "test";
           EvTime;
           EvAddToNum {["iter_time"%string := (clock env (ticks w) - start)%Q]} "test";
           EvAddToDenom {["iter_time"%string := 1%Q]} "test";
           EvTime]
       ++ evs) w'.

(** The cadence of a run: optimizer steps, flushes, reports and saves. *)
Inductive Mark :=
| MStep
| MFlush (i : Z) (phase : string)
| MPrintAvgs (i : Z)
| MPrintSave (i : Z)
| MPrintTest (i : Z)
| MSaveModel (fname : string)
| MSaveStats (fname : string) (i : Z).

Definition mark (e : Event) : list Mark :=
  match e with
  | EvStep => [MStep]
  | EvComputeAvgs i phase => [MFlush i phase]
  | EvPrint (MsgIter i _ _) => [MPrintAvgs i]
  | EvPrint (MsgSave i) => [MPrintSave i]
  | EvPrint (MsgTest i _ _) => [MPrintTest i]
  | EvTorchSave fname => [MSaveModel fname]
  | EvMonitorSave fname i => [MSaveStats fname i]
  | _ => []
  end.

Definition averages_marks (last_iter avgs_intv i : Z) : list Mark :=
  if (i `mod` avgs_intv =? 0) && negb (i =? last_iter)
  then [MFlush i "train"; MPrintAvgs i] else [].

Definition checkpoint_marks (last_iter chkpt_intv : Z) (dir : string) (i : Z) : list Mark :=
  if (i `mod` chkpt_intv =? 0) && negb (i =? last_iter)
  then [MPrintSave i;
        MSaveModel (path_join (path_join dir "models") ("model" +:+ pretty i +:+ ".ckpt"));
        MSaveStats (path_join (path_join dir "logs") ("stats_" +:+ pretty i +:+ ".h5")) i]
  else [].

(** The marks of one iteration of a run without validation sampler. *)
Definition iteration_marks (last_iter avgs_intv chkpt_intv : Z) (dir : string) (i : Z)
    : list Mark :=
  [MStep] ++ averages_marks last_iter avgs_intv i
          ++ checkpoint_marks last_iter chkpt_intv dir i.

(** The events of one training step. *)
Definition train_step_event (sampler : nat) (e : Event) : Prop :=
  match e with
  | EvGet s => s = sampler
  | EvTime | EvForward _ | EvZeroGrad | EvBackward _ | EvStep => True
  | EvAddToNum _ phase | EvAddToDenom _ phase => phase = "train"%string
  | _ => False
  end.

(** The events of the averages and checkpoint steps of iteration [i]; there
    are none when [i] is [last_iter]. *)
Definition cadence_event (last_iter i : Z) (e : Event) : Prop :=
  match e with
  | EvComputeAvgs j phase => j = i ∧ phase = "train"%string ∧ i ≠ last_iter
  | EvPrint (MsgIter j _ _) | EvPrint (MsgSave j) | EvMonitorSave _ j => j = i ∧ i ≠ last_iter
  | EvTorchSave _ => i ≠ last_iter
  | _ => False
  end.

(** A flush of the ["train"] phase, its report, or a checkpoint. *)
Definition train_flush_or_checkpoint (e : Event) : Prop :=
  match e with
  | EvComputeAvgs _ phase => phase = "train"%string
  | EvPrint (MsgIter _ _ _) | EvPrint (MsgSave _) | EvTorchSave _ | EvMonitorSave _ _ => True
  | _ => False
  end.

(** Requests to [sampler], optimizer steps, and the former minus the latter. *)
Definition requests (sampler : nat) (e : Event) : Z :=
  match e with
  | EvGet s => if decide (s = sampler) then 1 else 0
  | _ => 0
  end.

Definition steps (e : Event) : Z :=
  match e with
  | EvStep => 1
  | _ => 0
  end.

Definition surplus (sampler : nat) (e : Event) : Z := requests sampler e - steps e.

(** The world in which the next sample of [sampler] is [sample] instead. *)
Definition replace_next (sampler : nat) (sample : Sample) (w : World) : World :=
  mkWorld (fun s n => if decide (s = sampler ∧ n = 0%nat) then sample else samplers w s n)
          (ticks w) (nsteps w) (monitor w).

(** The variable [v] wraps the field [k] of the sample, with gradient mode
    [mode]. *)
Definition wraps (sample : Sample) (mode : grad_mode) (k : string) (v : Var) : Prop :=
  sample !! k = Some (var_data v) ∧ var_mode v = mode.

(** The gradient mode [make_variables] gives to the inputs in a phase. *)
Definition input_mode (phase : string) : option grad_mode :=
  if bool_decide (phase = "train"%string) then Some (RequiresGrad true)
  else if bool_decide (phase = "test"%string) then Some Volatile
  else None.

(** The last character of a path. *)
Fixpoint last_char (path : string) : option ascii :=
  match path with
  | EmptyString => None
  | String c EmptyString => Some c
  | String _ rest => last_char rest
  end.

(** The files a trace writes, in order. *)
Definition saved_files (evs : list Event) : list string :=
  flat_map (fun e => match e with
                     | EvTorchSave fname | EvMonitorSave fname _ => [fname]
                     | _ => []
                     end) evs.

(** The marks of the validation step of iteration [i]. *)
Definition validation_marks (val_sampler : option nat) (test_intv i : Z) : list Mark :=
  match val_sampler with
  | Some _ => if i `mod` test_intv =? 0 then [MFlush i "test"; MPrintTest i] else []
  | None => []
  end.

(** The marks of one iteration of a run: the optimizer step, then the
    validation, the averages and the checkpoint steps that are due. *)
Definition run_marks (val_sampler : option nat) (last_iter test_intv avgs_intv chkpt_intv : Z)
    (dir : string) (i : Z) : list Mark :=
  [MStep] ++ validation_marks val_sampler test_intv i
          ++ averages_marks last_iter avgs_intv i
          ++ checkpoint_marks last_iter chkpt_intv dir i.

(** Changes of the world that read the clock no further, and changes that
    never turn it back. *)
Definition same_clock : relation World := fun w w' => ticks w' = ticks w.
Definition clock_forward : relation World := fun w w' => (ticks w ≤ ticks w')%nat.

(** * Properties *)

(** ** Loss evaluation *)

Section EvalError.
Context (loss_fn : LossFn) (sample_spec : SampleSpec).
Context (label_names : list string) (labels masks : list Var).

Lemma py_nth_Ok {A} (l : list A) i x : py_nth l i = Ok x ↔ l !! i = Some x.
Proof. unfold py_nth. destruct (l !! i); split; congruence. Qed.

Lemma eval_error_loop_step i pred preds losses nmsks r :
  eval_error_loop loss_fn sample_spec label_names labels masks i (pred :: preds) losses nmsks
    = Ok r →
  ∃ label label_name losses1 nmsks1,
    labels !! i = Some label ∧ label_names !! i = Some label_name
    ∧ task_entry loss_fn sample_spec masks pred label label_name losses1 nmsks1
    ∧ dom losses1 = {[label_name]} ∪ dom losses
    ∧ dom nmsks1 = {[label_name]} ∪ dom nmsks
    ∧ (∀ k, k ≠ label_name → losses1 !! k = losses !! k ∧ nmsks1 !! k = nmsks !! k)
    ∧ eval_error_loop loss_fn sample_spec label_names labels masks (S i) preds losses1 nmsks1
      = Ok r.
Proof.
  simpl. destruct (py_nth labels i) as [label| |] eqn:Hl; simpl; try done.
  destruct (py_nth label_names i) as [name| |] eqn:Hn; simpl; try done.
  apply py_nth_Ok in Hl, Hn. unfold task_entry.
  destruct (has_mask sample_spec name) eqn:Hm.
  - destruct (py_getitem masks (get_mask_index sample_spec name)) as [mask| |] eqn:Hg;
      simpl; try done.
    intros Hr.
    exists label, name, (<[name := loss_fn pred label (Some mask)]> losses),
      (<[name := tsum (var_data mask)]> nmsks).
    rewrite Hm, !dom_insert_L. split_and!; try done.
    + exists mask. by rewrite !lookup_insert_eq.
    + intros k Hk. by rewrite !lookup_insert_ne.
  - intros Hr.
    exists label, name, (<[name := loss_fn pred label None]> losses),
      (<[name := inject_Z (Z.of_nat (numel (var_data label)))]> nmsks).
    rewrite Hm, !dom_insert_L, !lookup_insert_eq. split_and!; try done.
    intros k Hk. by rewrite !lookup_insert_ne.
Qed.

Lemma task_entry_agree pred label name losses nmsks losses' nmsks' :
  losses' !! name = losses !! name → nmsks' !! name = nmsks !! name →
  task_entry loss_fn sample_spec masks pred label name losses nmsks →
  task_entry loss_fn sample_spec masks pred label name losses' nmsks'.
Proof.
  unfold task_entry. intros -> ->. done.
Qed.

Lemma eval_error_loop_spec preds : ∀ i losses nmsks losses' nmsks',
  eval_error_loop loss_fn sample_spec label_names labels masks i preds losses nmsks
    = Ok (losses', nmsks') →
  let visited : list string := take (length preds) (drop i label_names) in
  length visited = length preds
  ∧ dom losses' = list_to_set visited ∪ dom losses
  ∧ dom nmsks' = list_to_set visited ∪ dom nmsks
  ∧ (∀ k, k ∉ visited → losses' !! k = losses !! k ∧ nmsks' !! k = nmsks !! k)
  ∧ (NoDup visited → ∀ j pred, preds !! j = Some pred →
       ∃ label label_name, labels !! (i + j)%nat = Some label
         ∧ label_names !! (i + j)%nat = Some label_name
         ∧ task_entry loss_fn sample_spec masks pred label label_name losses' nmsks').
Proof.
  induction preds as [|pred preds IH]; intros i losses nmsks losses' nmsks' Hrun.
  - simpl in Hrun. injection Hrun as <- <-. simpl.
    split_and!; [done|set_solver|set_solver|done|]. intros _ j pred Hj. by destruct j.
  - apply eval_error_loop_step in Hrun
      as (label & name & losses1 & nmsks1 & Hl & Hn & Hentry & Hd1 & Hd2 & Hother & Hrun).
    apply IH in Hrun as (Hlen & Hdl & Hdn & Hkeep & Hpos).
    rewrite (drop_S _ _ _ Hn). cbn [length take].
    split_and!.
    + simpl. by rewrite Hlen.
    + rewrite Hdl, Hd1. set_solver.
    + rewrite Hdn, Hd2. set_solver.
    + intros k [Hne Hk]%not_elem_of_cons.
      destruct (Hkeep k Hk) as [-> ->]. by apply Hother.
    + intros Hnodup j pred' Hj. apply NoDup_cons in Hnodup as [Hfresh Hnodup].
      destruct j as [|j]; simpl in Hj.
      * injection Hj as <-. exists label, name. rewrite Nat.add_0_r.
        repeat split; try done.
        destruct (Hkeep name Hfresh) as [Hkl Hkn].
        by apply (task_entry_agree _ _ _ losses1 nmsks1).
      * replace (i + S j)%nat with (S i + j)%nat by lia. by apply Hpos.
Qed.

Lemma eval_error_loop_no_assert preds : ∀ i losses nmsks msg,
  eval_error_loop loss_fn sample_spec label_names labels masks i preds losses nmsks
    ≠ Raise (AssertionError msg).
Proof.
  induction preds as [|pred preds IH]; intros i losses nmsks msg; simpl; [done|].
  unfold py_nth. destruct (labels !! i); simpl; [|done].
  destruct (label_names !! i); simpl; [|done].
  destruct (has_mask sample_spec s); [|apply IH].
  unfold py_getitem. repeat case_match; simpl; try done; apply IH.
Qed.

Lemma eval_error_loop_returns preds : ∀ i losses nmsks,
  (i + length preds ≤ length labels)%nat →
  (i + length preds ≤ length label_names)%nat →
  (∀ name, name ∈ label_names → has_mask sample_spec name = true →
     ∃ mask, py_getitem masks (get_mask_index sample_spec name) = Ok mask) →
  ∃ r, eval_error_loop loss_fn sample_spec label_names labels masks i preds losses nmsks = Ok r.
Proof.
  induction preds as [|pred preds IH]; intros i losses nmsks Hl Hn Hmasks; simpl in *.
  - by eexists.
  - destruct (lookup_lt_is_Some_2 labels i) as [label Hlabel]; [lia|].
    destruct (lookup_lt_is_Some_2 label_names i) as [name Hname]; [lia|].
    unfold py_nth. rewrite Hlabel, Hname. simpl.
    destruct (has_mask sample_spec name) eqn:Hm.
    + destruct (Hmasks name) as [mask ->]; [by eapply list_elem_of_lookup_2|done|].
      simpl. apply IH; [lia|lia|done].
    + apply IH; [lia|lia|done].
Qed.
End EvalError.

(** C3: under the cardinality precondition, the dictionaries returned by
    [eval_error] have exactly the label names as keys, and at every label
    position hold the masked loss and the mask's sum when the label has a
    mask, the unmasked loss and the label's element count otherwise.  (The
    label names of a [SampleSpec] are pairwise distinct, so no position
    overwrites the entry of another.) *)
Theorem eval_error_spec (preds labels masks : list Var) (loss_fn : LossFn)
    (sample_spec : SampleSpec) (losses nmsks : Dict) :
  length preds = length labels →
  length labels = length (get_labels sample_spec) →
  eval_error preds labels masks loss_fn sample_spec = Ok (losses, nmsks) →
  dom losses = list_to_set (get_labels sample_spec)
  ∧ dom nmsks = list_to_set (get_labels sample_spec)
  ∧ ∀ i pred label label_name,
      preds !! i = Some pred → labels !! i = Some label →
      get_labels sample_spec !! i = Some label_name →
      task_entry loss_fn sample_spec masks pred label label_name losses nmsks.
Proof.
  intros Hpl Hln. pose proof (labels_distinct sample_spec) as Hnodup. unfold eval_error.
  rewrite Hpl, <- Hln, !Nat.eqb_refl. simpl. intros Hrun.
  apply eval_error_loop_spec in Hrun as (_ & Hdl & Hdn & _ & Hpos).
  rewrite drop_0, Hpl, Hln, firstn_all in *. rewrite dom_empty_L in *.
  split_and!; [set_solver|set_solver|].
  intros i pred label name Hp Hl Hn.
  destruct (Hpos Hnodup i pred Hp) as (label' & name' & Hl' & Hn' & Hentry).
  simpl in *. by simplify_eq.
Qed.

Lemma eval_error_spec_witness :
  ∃ losses nmsks : Dict,
    eval_error [Fixture.v_pred] [Fixture.v_label] [Fixture.v_mask] Fixture.loss Fixture.spec
      = Ok (losses, nmsks)
    ∧ dom losses = list_to_set ["label"%string]
    ∧ losses !! "label"%string = Some (tsum Fixture.t_mask)
    ∧ nmsks !! "label"%string = Some (tsum Fixture.t_mask).
Proof.
  destruct (eval_error [Fixture.v_pred] [Fixture.v_label] [Fixture.v_mask]
              Fixture.loss Fixture.spec) as [[losses nmsks]| |] eqn:Hrun;
    [|vm_compute in Hrun; discriminate..].
  exists losses, nmsks. split; [done|].
  destruct (eval_error_spec [Fixture.v_pred] [Fixture.v_label] [Fixture.v_mask]
              Fixture.loss Fixture.spec losses nmsks eq_refl eq_refl Hrun)
    as (Hd & _ & Hpos).
  split; [exact Hd|].
  destruct (Hpos 0%nat _ _ _ eq_refl eq_refl eq_refl) as (mask & Hmask & Hl & Hn).
  injection Hmask as <-. split; [exact Hl|exact Hn].
Defined.

(** C6: [eval_error] raises an assertion error exactly when the cardinality
    precondition is violated; under the precondition it returns normally as
    soon as the mask lookups succeed. *)
Theorem eval_error_assertion (preds labels masks : list Var) (loss_fn : LossFn)
    (sample_spec : SampleSpec) :
  ((∃ msg, eval_error preds labels masks loss_fn sample_spec = Raise (AssertionError msg))
   ↔ (length labels ≠ length (get_labels sample_spec) ∨ length preds ≠ length labels))
  ∧ (length preds = length labels → length labels = length (get_labels sample_spec) →
     (∀ name, name ∈ get_labels sample_spec → has_mask sample_spec name = true →
        ∃ mask, py_getitem masks (get_mask_index sample_spec name) = Ok mask) →
     ∃ r, eval_error preds labels masks loss_fn sample_spec = Ok r).
Proof.
  unfold eval_error. split; [split|].
  - intros [msg Hrun].
    destruct (Nat.eqb_spec (length (get_labels sample_spec)) (length labels)); [|left; lia].
    destruct (Nat.eqb_spec (length preds) (length labels)); [|by right].
    simpl in Hrun. by apply eval_error_loop_no_assert in Hrun.
  - intros Hbad.
    destruct (Nat.eqb_spec (length (get_labels sample_spec)) (length labels)); simpl;
      [|by eexists].
    destruct (Nat.eqb_spec (length preds) (length labels)); simpl; [|by eexists].
    destruct Hbad; congruence.
  - intros Hpl Hln Hmasks. rewrite Hpl, <- Hln, !Nat.eqb_refl. simpl.
    apply eval_error_loop_returns; simpl; [lia|lia|done].
Qed.

Lemma eval_error_assertion_witness :
  ∃ r, eval_error [Fixture.v_pred] [Fixture.v_label] [Fixture.v_mask]
         Fixture.loss Fixture.spec = Ok r.
Proof.
  apply (eval_error_assertion [Fixture.v_pred] [Fixture.v_label] [Fixture.v_mask]
           Fixture.loss Fixture.spec); [reflexivity|reflexivity|].
  intros name _ _. exists Fixture.v_mask. reflexivity.
Defined.

(** ** Reasoning about effectful code *)

Lemma run_bind {A B} (m : M A) (f : A → M B) (w : World) :
  (m ≫= f) w =
  match m w with
  | (Ok a, w1, e1) => ((f a w1).1.1, (f a w1).1.2, e1 ++ (f a w1).2)
  | (Raise e, w1, e1) => (Raise e, w1, e1)
  | (Diverge, w1, e1) => (Diverge, w1, e1)
  end.
Proof.
  unfold mbind, M_bind. destruct (m w) as [[[a|e|] w1] e1]; try done.
  by destruct (f a w1) as [[r w2] e2].
Qed.

Lemma bind_ok_inv {A B} (m : M A) (f : A → M B) (w w' : World) (b : B) (evs : list Event) :
  (m ≫= f) w = (Ok b, w', evs) →
  ∃ a w1 e1 e2, m w = (Ok a, w1, e1) ∧ f a w1 = (Ok b, w', e2) ∧ evs = e1 ++ e2.
Proof.
  rewrite run_bind. destruct (m w) as [[[a|e|] w1] e1]; try done.
  destruct (f a w1) as [[r w2] e2] eqn:Hf. simpl. intros ?; simplify_eq.
  by eexists _, _, _, _.
Qed.

Lemma lift_ok_inv {A} (o : outcome A) (w w' : World) (a : A) (evs : list Event) :
  lift o w = (Ok a, w', evs) → o = Ok a ∧ w' = w ∧ evs = [].
Proof. unfold lift. by intros [= -> -> <-]. Qed.

Lemma lift_bind_run {A B} (a : A) (f : A → M B) w : (lift (Ok a) ≫= f) w = f a w.
Proof. rewrite run_bind. cbn. by destruct (f a w) as [[r w'] evs]. Qed.

Section Rules.
Context {A B : Type} (m : M A) (f : A → M B).

Lemma emits_bind P : emits P m → (∀ a, emits P (f a)) → emits P (m ≫= f).
Proof.
  intros Hm Hf w. rewrite run_bind. specialize (Hm w).
  destruct (m w) as [[[a|e|] w1] e1]; simpl in *; try done.
  apply Forall_app. split; [done|apply Hf].
Qed.

Lemma emits_mono P P' : (∀ e, P e → P' e) → emits P m → emits P' m.
Proof. intros HP Hm w. eapply Forall_impl; [apply Hm|done]. Qed.

Lemma preserves_bind R `{!PreOrder R} :
  preserves R m → (∀ a, preserves R (f a)) → preserves R (m ≫= f).
Proof.
  intros Hm Hf w. rewrite run_bind. specialize (Hm w).
  destruct (m w) as [[[a|e|] w1] e1]; simpl in *; try done.
  etrans; [done|apply Hf].
Qed.

Lemma tally_app wt e1 e2 : tally wt (e1 ++ e2) = tally wt e1 + tally wt e2.
Proof. induction e1 as [|e e1 IH]; simpl; lia. Qed.

Lemma at_least_bind wt a b c :
  at_least wt a m → (∀ x, at_least wt b (f x)) → c ≤ a → c ≤ a + b →
  at_least wt c (m ≫= f).
Proof.
  intros Hm Hf Ha Hab w. rewrite run_bind. specialize (Hm w).
  destruct (m w) as [[[x|e|] w1] e1]; simpl in *; try lia.
  rewrite tally_app. specialize (Hf x w1). lia.
Qed.

Lemma emits_at_least wt P :
  (∀ e, P e → 0 ≤ wt e) → emits P m → at_least wt 0 m.
Proof.
  intros HP Hm w. specialize (Hm w). induction Hm as [|e evs He _ IH]; simpl; [done|].
  specialize (HP e He). lia.
Qed.

Lemma yields_bind {X} (π : Event → list X) xs ys :
  yields π xs m → (∀ a, yields π ys (f a)) → yields π (xs ++ ys) (m ≫= f).
Proof.
  intros Hm Hf w b w' evs (a & w1 & e1 & e2 & H1 & H2 & ->)%bind_ok_inv.
  rewrite flat_map_app. f_equal; [by eapply Hm|by eapply Hf].
Qed.

Lemma emits_yields {X} (π : Event → list X) P :
  (∀ e, P e → π e = []) → emits P m → yields π [] m.
Proof.
  intros HP Hm w a w' evs Hrun. specialize (Hm w). rewrite Hrun in Hm. simpl in Hm.
  clear Hrun. induction Hm as [|e evs' He _ IH]; simpl; [done|]. by rewrite (HP e He), IH.
Qed.
End Rules.

#[global] Instance any_change_frame : Frame any_change.
Proof. by repeat split. Qed.

Section Confined.
Context (P : Event → Prop) (R : relation World) `{!Frame R}.

Lemma confined_bind {A B} (m : M A) (f : A → M B) :
  confined P R m → (∀ a, confined P R (f a)) → confined P R (m ≫= f).
Proof.
  intros [Hm1 Hm2] Hf. split.
  - apply emits_bind; [done|]. intros a. apply Hf.
  - apply preserves_bind; [apply _|done|]. intros a. apply Hf.
Qed.

Lemma confined_ret {A} (a : A) : confined P R (mret a).
Proof. split; intros w; cbn; [constructor|done]. Qed.

Lemma confined_lift {A} (o : outcome A) : confined P R (lift o).
Proof. split; intros w; cbn; [constructor|done]. Qed.

Lemma confined_raise {A} e : confined P R (raise (A:=A) e).
Proof. apply confined_lift. Qed.

(** The continuation only runs on the value a pure step returned. *)
Lemma confined_lift_bind {A B} (o : outcome A) (f : A → M B) :
  (∀ a, o = Ok a → confined P R (f a)) → confined P R (lift o ≫= f).
Proof.
  intros Hf. destruct o as [a| |]; split; intros w; rewrite run_bind; cbn;
    try constructor; try done; apply (Hf a eq_refl).
Qed.

Lemma confined_get_monitor : confined P R get_monitor.
Proof. split; intros w; cbn; [constructor|done]. Qed.

Lemma confined_emit ev : P ev → confined P R (emit ev).
Proof. intros H. split; intros w; cbn; [by repeat constructor|done]. Qed.

Lemma confined_update_monitor f ev :
  P ev → (∀ w, R w (with_monitor f w)) → confined P R (update_monitor f ev).
Proof. intros H HR. split; intros w; cbn; [by repeat constructor|done]. Qed.

Lemma confined_sampler_get sampler : P (EvGet sampler) → confined P R (sampler_get sampler).
Proof. intros H. split; intros w; cbn; [by repeat constructor|apply frame_advance]. Qed.

Lemma confined_time_time env : P EvTime → confined P R (time_time env).
Proof. intros H. split; intros w; cbn; [by repeat constructor|apply frame_tick]. Qed.

Lemma confined_forward env inputs : P (EvForward inputs) → confined P R (forward env inputs).
Proof. intros H. split; intros w; cbn; [by repeat constructor|done]. Qed.

Lemma confined_optimizer_step : P EvStep → (∀ w, R w (step w)) → confined P R optimizer_step.
Proof. intros H HR. split; intros w; cbn; [by repeat constructor|done]. Qed.
End Confined.

(** ** Fetching a sample *)

Lemma tsum_nonzero (l : list Q) :
  ¬ (fold_right Qplus 0 l == 0)%Q → ∃ x, x ∈ l ∧ ¬ (x == 0)%Q.
Proof.
  induction l as [|x l IH]; simpl; intros Hsum.
  - by destruct Hsum.
  - destruct (Qeq_dec x 0) as [Hx|Hx].
    + destruct IH as (y & Hy & Hy0).
      * intros Hl. apply Hsum. rewrite Hx, Hl. reflexivity.
      * exists y. split; [by right|done].
    + exists x. split; [by left|done].
Qed.

(** For a mask without negative entries, summing to zero and having no
    non-zero element are the same. *)
Lemma tsum_nonneg (l : list Q) :
  Forall (fun x => (0 <= x)%Q) l → (0 <= fold_right Qplus 0 l)%Q.
Proof. induction 1 as [|x l Hx _ IH]; simpl; lra. Qed.

Lemma tsum_zero_nonneg (l : list Q) :
  Forall (fun x => (0 <= x)%Q) l →
  (fold_right Qplus 0 l == 0)%Q ↔ Forall (fun x => (x == 0)%Q) l.
Proof.
  induction 1 as [|x l Hx Hl IH]; simpl.
  - split; [constructor|reflexivity].
  - pose proof (tsum_nonneg l Hl). split.
    + intros Hsum. constructor; [lra|]. apply IH. lra.
    + intros Hall. inversion Hall as [|? ? Hx0 Hl0]; subst. apply IH in Hl0. lra.
Qed.

Lemma masks_not_empty_false (sample : Sample) (masks : list string) :
  masks_not_empty sample masks = Ok false →
  ∀ name, name ∈ masks → ∃ mask, sample !! name = Some mask ∧ ¬ (tsum mask == 0)%Q.
Proof.
  induction masks as [|m masks IH]; simpl; intros Hrun name Hin.
  - by apply elem_of_nil in Hin.
  - unfold py_lookup in Hrun. destruct (sample !! m) as [mask|] eqn:Hm; simpl in Hrun; [|done].
    destruct (Qeq_bool (tsum mask) 0) eqn:Hz; [done|].
    apply elem_of_cons in Hin as [->|Hin]; [|by apply IH].
    exists mask. split; [done|]. by apply Qeq_bool_neq.
Qed.

Lemma masks_not_empty_expand_dims (sample : Sample) (masks : list string) :
  masks_not_empty (expand_dims <$> sample) masks = masks_not_empty sample masks.
Proof.
  induction masks as [|m masks IH]; simpl; [done|].
  unfold py_lookup. rewrite lookup_fmap. destruct (sample !! m) as [mask|]; simpl; [|done].
  unfold tsum at 1. simpl. fold (tsum mask). by rewrite IH.
Qed.

Lemma fetch_loop_eq fuel sampler masks sample :
  fetch_loop fuel sampler masks sample =
  (again ← lift (masks_not_empty sample masks);
   if again : bool then
     match fuel with
     | O => lift Diverge
     | S fuel' => sample' ← sampler_get sampler; fetch_loop fuel' sampler masks sample'
     end
   else mret sample).
Proof. by destruct fuel. Qed.

Lemma fetch_loop_accepts fuel sampler masks : ∀ sample w sample' w' evs,
  fetch_loop fuel sampler masks sample w = (Ok sample', w', evs) →
  masks_not_empty sample' masks = Ok false.
Proof.
  induction fuel as [|fuel IH]; intros sample w sample' w' evs; rewrite fetch_loop_eq;
    intros (again & w1 & e1 & e2 & (Hagain & -> & ->)%lift_ok_inv & Hrest & ->)%bind_ok_inv;
    destruct again; try done.
  - by injection Hrest as <- <- <-.
  - apply bind_ok_inv in Hrest as (s & w2 & e3 & e4 & _ & Hloop & _). by eapply IH.
  - by injection Hrest as <- <- <-.
Qed.

Lemma samplers_advance sampler w k :
  samplers (advance sampler w) sampler k = samplers w sampler (S k).
Proof. simpl. by rewrite decide_True. Qed.

Lemma fetch_loop_finds sampler masks : ∀ n fuel sample w,
  (n ≤ fuel)%nat →
  masks_not_empty (nth_sample sampler sample w n) masks = Ok false →
  (∀ k, (k < n)%nat → masks_not_empty (nth_sample sampler sample w k) masks = Ok true) →
  ∃ w', fetch_loop fuel sampler masks sample w
        = (Ok (nth_sample sampler sample w n), w', replicate n (EvGet sampler)).
Proof.
  induction n as [|n IH]; intros fuel sample w Hfuel Hgood Hbad; rewrite fetch_loop_eq, run_bind.
  - simpl in Hgood. cbn. rewrite Hgood. by eexists.
  - pose proof (Hbad 0%nat ltac:(lia)) as H0. simpl in H0. cbn. rewrite H0.
    destruct fuel as [|fuel]; [lia|]. rewrite run_bind. cbn.
    destruct (IH fuel (samplers w sampler 0%nat) (advance sampler w)) as [w' Hrun]; [lia| | |].
    + destruct n; [done|]. cbn [nth_sample]. by rewrite samplers_advance.
    + intros k Hk. specialize (Hbad (S k) ltac:(lia)).
      destruct k; [done|]. cbn [nth_sample]. by rewrite samplers_advance.
    + rewrite Hrun. cbn. exists w'. do 2 f_equal.
      destruct n; [done|]. cbn [nth_sample]. by rewrite samplers_advance.
Qed.

(** C1: a sample returned by [fetch_nonempty_sample] has, for every named
    mask, a non-zero sum and hence a non-zero element; and the function keeps
    requesting samples until that holds: it returns the first sample of the
    stream none of whose named masks sums to zero, having rejected all the
    earlier ones. *)
Theorem fetch_nonempty_sample_spec (fuel sampler : nat) (masks : list string) (w : World) :
  (∀ sample w' evs,
     fetch_nonempty_sample fuel sampler masks w = (Ok sample, w', evs) →
     ∀ name, name ∈ masks →
       ∃ mask, sample !! name = Some mask ∧ ¬ (tsum mask == 0)%Q
               ∧ ∃ x, x ∈ tdata mask ∧ ¬ (x == 0)%Q)
  ∧ (∀ n, (n ≤ fuel)%nat →
       masks_not_empty (samplers w sampler n) masks = Ok false →
       (∀ k, (k < n)%nat → masks_not_empty (samplers w sampler k) masks = Ok true) →
       ∃ w', fetch_nonempty_sample fuel sampler masks w
             = (Ok (expand_dims <$> samplers w sampler n), w', replicate (S n) (EvGet sampler))).
Proof.
  split.
  - intros sample w' evs (s0 & w1 & e1 & e2 & _ & Hrest & _)%bind_ok_inv name Hin.
    apply bind_ok_inv in Hrest as (s & w2 & e3 & e4 & Hloop & Hret & _).
    injection Hret as <- _ _. apply fetch_loop_accepts in Hloop.
    rewrite <- masks_not_empty_expand_dims in Hloop.
    destruct (masks_not_empty_false _ _ Hloop name Hin) as (mask & Hmask & Hsum).
    exists mask. split_and!; [done..|]. by apply tsum_nonzero.
  - intros n Hfuel Hgood Hbad. unfold fetch_nonempty_sample. rewrite run_bind. cbn.
    destruct (fetch_loop_finds sampler masks n fuel (samplers w sampler 0%nat)
                (advance sampler w)) as [w' Hrun]; [done| |  |].
    + destruct n; [done|]. cbn [nth_sample]. by rewrite samplers_advance.
    + intros k Hk. specialize (Hbad k Hk).
      destruct k; [done|]. cbn [nth_sample]. by rewrite samplers_advance.
    + rewrite run_bind, Hrun. cbn. exists w'. rewrite app_nil_r. do 3 f_equal.
      destruct n; [done|]. cbn [nth_sample]. by rewrite samplers_advance.
Qed.

Lemma fetch_nonempty_sample_spec_witness :
  ∃ w', fetch_nonempty_sample 3 0 ["label_mask"%string] Fixture.world
        = (Ok (expand_dims <$> Fixture.good_sample), w', [EvGet 0%nat; EvGet 0%nat]).
Proof.
  apply (proj2 (fetch_nonempty_sample_spec 3 0 ["label_mask"%string] Fixture.world) 1%nat).
  - lia.
  - reflexivity.
  - intros k Hk. assert (k = 0%nat) as -> by lia. reflexivity.
Defined.

(** ** The parameter update *)

Lemma py_sum_from (values : list Q) (a : Q) :
  (fold_left Qplus values a == a + foldr Qplus 0 values)%Q.
Proof.
  revert a. induction values as [|v values IH]; intros a; simpl.
  - ring.
  - rewrite IH. ring.
Qed.

Lemma py_sum_values (losses : Dict) :
  (py_sum (map_to_list losses).*2 == unweighted_sum losses)%Q.
Proof.
  unfold py_sum, unweighted_sum. rewrite py_sum_from, map_fold_foldr.
  induction (map_to_list losses) as [|[k v] l IH]; simpl in *.
  - ring.
  - rewrite <- IH, !Qplus_0_l. reflexivity.
Qed.

Lemma unweighted_sum_insert (losses : Dict) (k : string) (v : Q) :
  losses !! k = None → (unweighted_sum (<[k := v]> losses) == v + unweighted_sum losses)%Q.
Proof.
  intros Hk. unfold unweighted_sum. rewrite !map_fold_foldr.
  assert (∀ l1 l2 : list (string * Q), l1 ≡ₚ l2 →
            (foldr (uncurry (fun (_ : string) v acc => v + acc)) 0 l1
             == foldr (uncurry (fun (_ : string) v acc => v + acc)) 0 l2)%Q) as Hperm.
  { induction 1 as [|[] ? ? ? IH|[] []|]; simpl in *.
    - reflexivity.
    - by rewrite IH.
    - ring.
    - etrans; eauto. }
  rewrite (Hperm _ _ (map_to_list_insert losses k v Hk)). simpl. reflexivity.
Qed.

(** C5, as amended: with at least one loss, [update_model] clears the
    gradients, backpropagates the unweighted sum of all losses and takes exactly
    one optimizer step, in that order, and returns nothing. *)
Theorem update_model_spec (losses : Dict) (w : World) :
  losses ≠ ∅ →
  update_model losses w
    = (Ok tt, step w, [EvZeroGrad; EvBackward (py_sum (map_to_list losses).*2); EvStep])
  ∧ (py_sum (map_to_list losses).*2 == unweighted_sum losses)%Q.
Proof.
  intros Hne. split; [|apply py_sum_values].
  unfold update_model. rewrite run_bind. cbn.
  destruct (map_to_list losses) as [|kv l] eqn:Hl.
  - by apply map_to_list_empty_iff in Hl.
  - reflexivity.
Qed.

Lemma update_model_spec_witness :
  update_model {["label"%string := 2%Q]} Fixture.world
    = (Ok tt, step Fixture.world, [EvZeroGrad; EvBackward (0 + 2)%Q; EvStep]).
Proof.
  refine (proj1 (update_model_spec {["label"%string := 2%Q]} Fixture.world _)).
  intros H. apply (f_equal (fun m : Dict => m !! "label"%string)) in H. discriminate H.
Defined.

(** C5 as stated fails when there is no loss at all: the gradients are
    cleared, and the call then fails without a backward pass or a step. *)
Lemma update_model_no_losses :
  update_model ∅ Fixture.world = (Raise (AttributeError "backward"), Fixture.world, [EvZeroGrad])
  ∧ ¬ ∃ total w', update_model ∅ Fixture.world
                  = (Ok tt, w', [EvZeroGrad; EvBackward total; EvStep]).
Proof.
  split; [reflexivity|]. intros (total & w' & H). discriminate H.
Qed.

(** ** Configuration check *)

Lemma params_defined_iff (params : gmap string pyval) :
  params_defined params = true ↔ ∀ k, k ∈ required_params → is_Some (params !! k).
Proof.
  unfold params_defined, required_params. split.
  - intros H k Hk. apply elem_of_dom.
    repeat (case_bool_decide; [|done]).
    repeat (apply elem_of_cons in Hk as [->|Hk]; [done|]). by apply elem_of_nil in Hk.
  - intros H.
    repeat (rewrite bool_decide_eq_true_2; [|apply elem_of_dom, H; set_solver]). done.
Qed.

(** C7: when a required option is missing, [train] fails with the
    configuration error and has no effect at all; when the six options are
    present the check passes, whatever other options there are, and the run
    goes on to create the monitor and draw a sample. *)
Theorem train_params_check (env : Env) (fuel sampler : nat) (val_sampler : option nat)
    (last_iter : Z) (params : gmap string pyval) (w : World) :
  ((∃ k, k ∈ required_params ∧ params !! k = None) →
     train env fuel sampler val_sampler last_iter params w
       = (Raise (AssertionError "Params under-specified"), w, []))
  ∧ ((∀ k, k ∈ required_params → is_Some (params !! k)) →
     ∀ extra : gmap string pyval,
       params_defined (params ∪ extra) = true
       ∧ ∃ evs, (train env fuel sampler val_sampler last_iter (params ∪ extra) w).2
                = EvNewMonitor :: EvGet sampler :: evs).
Proof.
  split.
  - intros (k & Hk & Hnone). unfold train.
    destruct (params_defined params) eqn:Hdef; [|done].
    destruct (proj1 (params_defined_iff params) Hdef k Hk) as [v Hv]. congruence.
  - intros Hall extra.
    assert (params_defined (params ∪ extra) = true) as Hdef.
    { apply params_defined_iff. intros k Hk. destruct (Hall k Hk) as [v Hv].
      exists v. by apply lookup_union_Some_l. }
    split; [done|]. unfold train. rewrite Hdef, run_bind. cbn. rewrite run_bind. cbn.
    by eexists.
Qed.

Lemma train_params_check_witness :
  train Fixture.env 3 0 None 0 (delete "expt_dir"%string (Fixture.params 10 100 2 5 5))
    Fixture.world
  = (Raise (AssertionError "Params under-specified"), Fixture.world, [])
  ∧ params_defined (Fixture.params 10 100 2 5 5 ∪ {["verbose"%string := PInt 1]}) = true.
Proof.
  split.
  - apply (train_params_check Fixture.env 3 0 None 0).
    exists "expt_dir"%string. split; [set_solver|reflexivity].
  - apply (train_params_check Fixture.env 3 0 None 0 (Fixture.params 10 100 2 5 5) Fixture.world).
    intros k Hk. unfold required_params in Hk.
    repeat (apply elem_of_cons in Hk as [->|Hk]; [by eexists|]). by apply elem_of_nil in Hk.
Defined.

(** ** Validation *)

Lemma confined_mono {A} (P P' : Event → Prop) (R : relation World) (m : M A) :
  (∀ e, P e → P' e) → confined P R m → confined P' R m.
Proof. intros HP [Hm1 Hm2]. split; [by eapply emits_mono|done]. Qed.

Lemma add_to_num_local d phase mon q : q ≠ phase → add_to_num d phase mon !! q = mon !! q.
Proof. intros Hq. unfold add_to_num. by rewrite lookup_insert_ne. Qed.

Lemma add_to_denom_local d phase mon q : q ≠ phase → add_to_denom d phase mon !! q = mon !! q.
Proof. intros Hq. unfold add_to_denom. by rewrite lookup_insert_ne. Qed.

Lemma compute_avgs_local i phase mon q : q ≠ phase → compute_avgs i phase mon !! q = mon !! q.
Proof. intros Hq. unfold compute_avgs. by rewrite lookup_insert_ne. Qed.

(** Apply a rule and discharge its [Frame] premise. *)
Tactic Notation "conf" uconstr(rule) := apply rule; try (by apply _).

Section ConfinedCode.
Context (P : Event → Prop) (R : relation World) `{!Frame R}.

Lemma confined_fetch_loop fuel sampler masks : ∀ sample,
  P (EvGet sampler) → confined P R (fetch_loop fuel sampler masks sample).
Proof.
  induction fuel as [|fuel IH]; intros sample HP; rewrite fetch_loop_eq;
    (conf confined_bind; [conf confined_lift|]); intros [|];
    try (by conf confined_ret); try (by conf confined_lift).
  conf confined_bind; [by conf confined_sampler_get|]. intros s. by apply IH.
Qed.

Lemma confined_fetch_nonempty_sample fuel sampler masks :
  P (EvGet sampler) → confined P R (fetch_nonempty_sample fuel sampler masks).
Proof.
  intros HP. conf confined_bind; [by conf confined_sampler_get|]. intros s.
  conf confined_bind; [by conf confined_fetch_loop|]. intros s'.
  by conf confined_ret.
Qed.

Lemma confined_log_errors losses nmsks phase :
  (∀ d, P (EvAddToNum d phase)) → (∀ d, P (EvAddToDenom d phase)) → tolerates R phase →
  confined P R (log_errors losses nmsks phase).
Proof.
  intros HPn HPd HR. unfold log_errors. case_bool_decide; [|by conf confined_raise].
  conf confined_bind; [ |intros _]; conf confined_update_monitor; try done.
  - apply HR. intros. by apply add_to_num_local.
  - apply HR. intros. by apply add_to_denom_local.
Qed.

Lemma confined_log_elapsed_time elapsed phase :
  (∀ d, P (EvAddToNum d phase)) → (∀ d, P (EvAddToDenom d phase)) → tolerates R phase →
  confined P R (log_elapsed_time elapsed phase).
Proof.
  intros HPn HPd HR. unfold log_elapsed_time.
  conf confined_bind; [ |intros _]; conf confined_update_monitor; try done.
  - apply HR. intros. by apply add_to_num_local.
  - apply HR. intros. by apply add_to_denom_local.
Qed.

Lemma confined_avg_losses_of losses phase : confined P R (avg_losses_of losses phase).
Proof.
  unfold avg_losses_of. conf confined_bind; [conf confined_get_monitor|]. intros mon.
  conf confined_bind; [conf confined_lift|]. intros kvs. by conf confined_ret.
Qed.

Lemma confined_avg_time_of phase : confined P R (avg_time_of phase).
Proof.
  unfold avg_time_of. conf confined_bind; [conf confined_get_monitor|]. intros mon.
  conf confined_bind; [conf confined_lift|]. intros v. by conf confined_ret.
Qed.
End ConfinedCode.

Lemma mapM_outcome_Forall {A B} (f : A → outcome B) (Q : B → Prop) (l : list A) :
  (∀ a b, f a = Ok b → Q b) → ∀ r, mapM f l = Ok r → Forall Q r.
Proof.
  intros Hf. induction l as [|a l IH]; simpl; intros r Hr.
  - injection Hr as <-. constructor.
  - destruct (f a) as [b| |] eqn:Hb; simpl in Hr; try done.
    destruct (mapM f l) as [k| |]; simpl in Hr; try done.
    injection Hr as <-. constructor; [by eapply Hf|by apply IH].
Qed.

Lemma make_variables_test sample sample_spec inputs labels masks :
  make_variables sample sample_spec "test" = Ok (inputs, labels, masks) →
  Forall (fun v => var_mode v = Volatile) inputs.
Proof.
  unfold make_variables. simpl.
  destruct (mapM _ (get_inputs sample_spec)) as [vs| |] eqn:Hin; simpl; try done.
  destruct (mapM _ (get_labels sample_spec)) as [ls| |]; simpl; try done.
  destruct (mapM _ (get_masks sample_spec)) as [ms| |]; simpl; try done.
  intros [= <- _ _]. revert Hin. apply mapM_outcome_Forall.
  intros k v. unfold py_lookup. destruct (sample !! k); simpl; [|done]. by intros [= <-].
Qed.

Section ConfinedValidation.
Context (R : relation World) `{!Frame R} (HR : tolerates R "test").
Context (env : Env) (fuel sampler : nat) (sample_spec : SampleSpec) (iter_num : Z).

Lemma confined_run_validation_loop mask_names count : ∀ start losses,
  confined (validation_event sampler iter_num) R
    (run_validation_loop env fuel sampler sample_spec mask_names count start losses).
Proof.
  induction count as [|count IH]; intros start losses; simpl; [by conf confined_ret|].
  conf confined_bind; [by conf confined_fetch_nonempty_sample|]. intros sample.
  conf confined_lift_bind. intros [[inputs labels] masks] Hvars.
  conf confined_bind; [conf confined_forward|].
  { simpl. by eapply make_variables_test. }
  intros preds. conf confined_bind; [by conf confined_lift|]. intros [losses' nmsks].
  conf confined_bind; [by conf confined_log_errors|]. intros _.
  conf confined_bind; [by conf confined_time_time|]. intros now.
  conf confined_bind; [by conf confined_log_elapsed_time|]. intros _.
  conf confined_bind; [by conf confined_time_time|]. intros start'.
  apply IH.
Qed.

Lemma confined_run_validation num_iters :
  confined (validation_event sampler iter_num) R
    (run_validation env fuel sampler num_iters sample_spec iter_num).
Proof.
  unfold run_validation.
  conf confined_bind; [by conf confined_time_time|]. intros start.
  conf confined_bind; [by conf confined_lift|]. intros n.
  conf confined_bind; [by conf confined_run_validation_loop|]. intros losses.
  conf confined_bind; [conf confined_update_monitor; [done|]|].
  { apply HR. intros. by apply compute_avgs_local. }
  intros _. destruct losses as [losses|]; [|by conf confined_raise].
  conf confined_bind; [by conf confined_avg_losses_of|]. intros avg_losses.
  conf confined_bind; [by conf confined_avg_time_of|]. intros avg_time.
  by conf confined_emit.
Qed.
End ConfinedValidation.

#[global] Instance train_side_untouched_frame : Frame train_side_untouched.
Proof.
  split; [split| |]; try done.
  intros w1 w2 w3 [H1 H2] [H3 H4]. split; congruence.
Qed.

Lemma train_side_untouched_test : tolerates train_side_untouched "test".
Proof. intros f Hf w. split; [done|]. simpl. by apply Hf. Qed.

Section Yields.
Context {X : Type} (π : Event → list X).

Lemma yields_eq {A} xs ys (m : M A) : yields π xs m → xs = ys → yields π ys m.
Proof. by intros H <-. Qed.

Lemma yields_fixed {A} (m : M A) evs :
  (∀ w, (m w).2 = evs) → yields π (flat_map π evs) m.
Proof. intros Hm w a w' e Hrun. specialize (Hm w). rewrite Hrun in Hm. by subst. Qed.

Lemma yields_ret {A} (a : A) : yields π [] (mret a).
Proof. by apply (yields_fixed _ []). Qed.

Lemma yields_lift {A} (o : outcome A) : yields π [] (lift o).
Proof. by apply (yields_fixed _ []). Qed.

Lemma yields_lift_bind {A B} (o : outcome A) (f : A → M B) xs :
  (∀ a, o = Ok a → yields π xs (f a)) → yields π xs (lift o ≫= f).
Proof.
  intros Hf w b w' evs (a & w1 & e1 & e2 & (-> & -> & ->)%lift_ok_inv & H2 & ->)%bind_ok_inv.
  by eapply Hf.
Qed.

Lemma yields_emit ev xs : π ev = xs → yields π xs (emit ev).
Proof. intros <-. rewrite <- (app_nil_r (π ev)). by apply (yields_fixed _ [ev]). Qed.

Lemma yields_update_monitor f ev xs : π ev = xs → yields π xs (update_monitor f ev).
Proof. intros <-. rewrite <- (app_nil_r (π ev)). by apply (yields_fixed _ [ev]). Qed.

Lemma yields_time_time env xs : π EvTime = xs → yields π xs (time_time env).
Proof. intros <-. rewrite <- (app_nil_r (π EvTime)). by apply (yields_fixed _ [EvTime]). Qed.

Lemma yields_forward env inputs xs :
  π (EvForward inputs) = xs → yields π xs (forward env inputs).
Proof.
  intros <-. rewrite <- (app_nil_r (π _)). by apply (yields_fixed _ [EvForward inputs]).
Qed.

Lemma yields_fetch_nonempty_sample fuel sampler masks :
  π (EvGet sampler) = [] → yields π [] (fetch_nonempty_sample fuel sampler masks).
Proof.
  intros Hπ. apply (emits_yields _ _ (fun e => e = EvGet sampler)); [by intros e ->|].
  by apply (confined_fetch_nonempty_sample _ any_change).
Qed.

Lemma yields_log_errors losses nmsks phase xs :
  π (EvAddToNum losses phase) ++ π (EvAddToDenom nmsks phase) = xs →
  yields π xs (log_errors losses nmsks phase).
Proof.
  intros <-. unfold log_errors. case_bool_decide; [|by intros w a w' evs].
  apply yields_bind; [by apply yields_update_monitor|].
  intros _. by apply yields_update_monitor.
Qed.

Lemma yields_log_elapsed_time elapsed phase xs :
  π (EvAddToNum {["iter_time"%string := elapsed]} phase)
    ++ π (EvAddToDenom {["iter_time"%string := 1%Q]} phase) = xs →
  yields π xs (log_elapsed_time elapsed phase).
Proof.
  intros <-. unfold log_elapsed_time.
  apply yields_bind; [by apply yields_update_monitor|].
  intros _. by apply yields_update_monitor.
Qed.

Lemma yields_avg_losses_of losses phase : yields π [] (avg_losses_of losses phase).
Proof.
  apply (emits_yields _ _ (fun _ => False)); [done|].
  apply (confined_avg_losses_of _ any_change).
Qed.

Lemma yields_avg_time_of phase : yields π [] (avg_time_of phase).
Proof.
  apply (emits_yields _ _ (fun _ => False)); [done|].
  apply (confined_avg_time_of _ any_change).
Qed.
End Yields.

(** Apply a rule for a call whose projected events are computed on the spot. *)
Tactic Notation "yield" uconstr(rule) := apply rule; simpl; reflexivity.

Lemma yields_run_validation_loop env fuel sampler sample_spec mask_names count :
  ∀ start losses,
    yields kind (concat (replicate count validation_pass))
      (run_validation_loop env fuel sampler sample_spec mask_names count start losses).
Proof.
  induction count as [|count IH]; intros start losses; simpl; [apply yields_ret|].
  eapply yields_eq.
  - apply yields_bind; [by apply yields_fetch_nonempty_sample|]. intros sample.
    apply yields_bind; [apply yields_lift|]. intros [[inputs labels] masks].
    apply yields_bind; [yield yields_forward|]. intros preds.
    apply yields_bind; [apply yields_lift|]. intros [losses' nmsks].
    apply yields_bind; [yield yields_log_errors|]. intros _.
    apply yields_bind; [yield yields_time_time|]. intros now.
    apply yields_bind; [yield yields_log_elapsed_time|]. intros _.
    apply yields_bind; [yield yields_time_time|]. intros start'.
    apply IH.
  - reflexivity.
Qed.

Lemma yields_run_validation env fuel sampler n sample_spec iter_num :
  yields kind (concat (replicate (Z.to_nat n) validation_pass) ++ [KFlush iter_num "test"])
    (run_validation env fuel sampler (PInt n) sample_spec iter_num).
Proof.
  unfold run_validation. eapply yields_eq.
  - apply yields_bind; [yield yields_time_time|]. intros start.
    apply yields_lift_bind. intros n' [= <-].
    apply yields_bind; [apply yields_run_validation_loop|]. intros losses.
    apply yields_bind; [yield yields_update_monitor|]. intros _.
    destruct losses as [losses|]; [|by intros w a w' evs].
    apply yields_bind; [apply yields_avg_losses_of|]. intros avg_losses.
    apply yields_bind; [apply yields_avg_time_of|]. intros avg_time.
    yield yields_emit.
  - reflexivity.
Qed.

Lemma run_validation_no_iters env fuel sampler n sample_spec iter_num w :
  n ≤ 0 →
  run_validation env fuel sampler (PInt n) sample_spec iter_num w
  = (Raise (UnboundLocalError "losses"),
     with_monitor (compute_avgs iter_num "test") (tick w),
     [EvTime; EvComputeAvgs iter_num "test"]).
Proof.
  intros Hn. unfold run_validation. rewrite run_bind. cbn. rewrite run_bind. cbn.
  rewrite Z2Nat.nonpos by done. reflexivity.
Qed.

Lemma run_validation_ok_iters env fuel sampler num_iters sample_spec iter_num w w' evs :
  run_validation env fuel sampler num_iters sample_spec iter_num w = (Ok tt, w', evs) →
  ∃ n, num_iters = PInt n ∧ 1 ≤ n.
Proof.
  destruct num_iters as [n|s]; [|done].
  destruct (Z_le_gt_dec n 0) as [Hn|Hn]; [by rewrite run_validation_no_iters|].
  intros _. exists n. split; [done|lia].
Qed.

Lemma fetch_loop_frame sampler masks fuel : ∀ sample w r w' evs,
  fetch_loop fuel sampler masks sample w = (r, w', evs) →
  ∃ n, (n ≤ fuel)%nat ∧ evs = replicate n (EvGet sampler)
       ∧ ticks w' = ticks w ∧ nsteps w' = nsteps w ∧ monitor w' = monitor w
       ∧ (∀ s k, samplers w' s k
                 = if decide (s = sampler) then samplers w s (n + k)%nat else samplers w s k)
       ∧ (∀ sample', r = Ok sample' → sample' = nth_sample sampler sample w n).
Proof.
  induction fuel as [|fuel IH]; intros sample w r w' evs; rewrite fetch_loop_eq.
  - destruct (masks_not_empty sample masks) as [[|]|e|].
    + rewrite lift_bind_run. intros [= <- <- <-]. exists 0%nat.
      split_and!; try done. intros s k. by case_decide.
    + rewrite lift_bind_run. intros [= <- <- <-]. exists 0%nat.
      split_and!; try done; [intros s k; by case_decide|by intros s' [= <-]].
    + rewrite run_bind. cbn. intros [= <- <- <-]. exists 0%nat.
      split_and!; try done. intros s k. by case_decide.
    + rewrite run_bind. cbn. intros [= <- <- <-]. exists 0%nat.
      split_and!; try done. intros s k. by case_decide.
  - destruct (masks_not_empty sample masks) as [[|]|e|].
    + rewrite lift_bind_run, run_bind. cbn.
      destruct (fetch_loop fuel sampler masks (samplers w sampler 0%nat) (advance sampler w))
        as [[r1 w1] e1] eqn:Hloop.
      apply IH in Hloop as (n & Hn & -> & Ht & Hs & Hm & Hsam & Hres).
      simpl. intros [= <- <- <-]. exists (S n). split_and!; try done; [lia|..].
      * intros s k. rewrite Hsam. case_decide; [subst s; by rewrite samplers_advance|].
        simpl. by rewrite decide_False.
      * intros s' Hs'. rewrite (Hres s' Hs'). destruct n; [done|].
        cbn [nth_sample]. by rewrite samplers_advance.
    + rewrite lift_bind_run. intros [= <- <- <-]. exists 0%nat.
      split_and!; try done; [lia|intros s k; by case_decide|by intros s' [= <-]].
    + rewrite run_bind. cbn. intros [= <- <- <-]. exists 0%nat.
      split_and!; try done; [lia|]. intros s k. by case_decide.
    + rewrite run_bind. cbn. intros [= <- <- <-]. exists 0%nat.
      split_and!; try done; [lia|]. intros s k. by case_decide.
Qed.

Lemma fetch_nonempty_sample_requests (fuel sampler : nat) (masks : list string)
    (w w' : World) (r : outcome Sample) (evs : list Event) :
  fetch_nonempty_sample fuel sampler masks w = (r, w', evs) →
  ∃ n, (n ≤ fuel)%nat ∧ evs = replicate (S n) (EvGet sampler)
       ∧ ticks w' = ticks w ∧ nsteps w' = nsteps w ∧ monitor w' = monitor w
       ∧ (∀ s k, samplers w' s k
                 = if decide (s = sampler) then samplers w s (S n + k)%nat
                   else samplers w s k)
       ∧ (∀ sample, r = Ok sample → sample = expand_dims <$> samplers w sampler n).
Proof.
  unfold fetch_nonempty_sample. rewrite run_bind. cbn. rewrite run_bind.
  destruct (fetch_loop fuel sampler masks (samplers w sampler 0%nat) (advance sampler w))
    as [[r1 w1] e1] eqn:Hloop.
  apply fetch_loop_frame in Hloop as (n & Hn & -> & Ht & Hs & Hm & Hsam & Hres).
  assert (∀ s k, samplers w1 s k
                 = if decide (s = sampler) then samplers w s (S n + k)%nat
                   else samplers w s k) as Hsam'.
  { intros s k. rewrite Hsam. case_decide.
    - subst s. by rewrite samplers_advance.
    - simpl. by rewrite decide_False. }
  assert (nth_sample sampler (samplers w sampler 0%nat) (advance sampler w) n
          = samplers w sampler n) as Hnth.
  { destruct n; [done|]. cbn [nth_sample]. by rewrite samplers_advance. }
  destruct r1 as [s1|e|]; cbn; intros [= <- <- <-]; exists n;
    rewrite ?app_nil_r; split_and!; try done.
  intros sample [= <-]. by rewrite (Hres s1 eq_refl), Hnth.
Qed.

Lemma log_errors_ok_inv (losses nmsks : Dict) (phase : string) (w w' : World)
    (evs : list Event) :
  log_errors losses nmsks phase w = (Ok tt, w', evs) →
  w' = with_monitor (add_to_denom nmsks phase) (with_monitor (add_to_num losses phase) w)
  ∧ evs = [EvAddToNum losses phase; EvAddToDenom nmsks phase].
Proof.
  unfold log_errors. case_bool_decide; [|done]. rewrite run_bind. cbn.
  by intros [= <- <-].
Qed.

Lemma run_validation_loop_passes env fuel sampler sample_spec count :
  ∀ start losses0 w r w' evs,
    run_validation_loop env fuel sampler sample_spec (get_masks sample_spec) count start
      losses0 w = (Ok r, w', evs) →
    validation_passes env fuel sampler sample_spec count start w evs w'.
Proof.
  induction count as [|count IH]; intros start losses0 w r w' evs; simpl.
  { intros [= <- <- <-]. constructor. }
  intros (sample & w1 & e1 & e2 & Hfetch & Hrun & ->)%bind_ok_inv.
  apply bind_ok_inv in Hrun
    as ([[inputs labels] masks] & w2 & e3 & e4 & (Hvars & -> & ->)%lift_ok_inv & Hrun & ->).
  apply bind_ok_inv in Hrun as (preds & w3 & e5 & e6 & Hfwd & Hrun & ->).
  unfold forward in Hfwd. injection Hfwd as <- <- <-.
  apply bind_ok_inv in Hrun
    as ([losses nmsks] & w4 & e7 & e8 & (Heval & -> & ->)%lift_ok_inv & Hrun & ->).
  apply bind_ok_inv in Hrun
    as ([] & w5 & e9 & e10 & (-> & ->)%log_errors_ok_inv & Hrun & ->).
  apply bind_ok_inv in Hrun as (now & w6 & e11 & e12 & Hnow & Hrun & ->).
  unfold time_time in Hnow. injection Hnow as <- <- <-.
  apply bind_ok_inv in Hrun as ([] & w7 & e13 & e14 & Hlog & Hrun & ->).
  unfold log_elapsed_time in Hlog. rewrite run_bind in Hlog. cbn in Hlog.
  injection Hlog as <- <-.
  apply bind_ok_inv in Hrun as (start' & w8 & e15 & e16 & Hstart & Hrun & ->).
  unfold time_time in Hstart. injection Hstart as <- <- <-.
  apply IH in Hrun.
  destruct (fetch_nonempty_sample_requests _ _ _ _ _ _ _ Hfetch)
    as (n & _ & -> & Ht & Hs & _).
  cbn in Hrun. rewrite Ht in Hrun. rewrite Hs in Heval.
  cbn. rewrite Ht. by eapply passes_next.
Qed.

Lemma run_validation_ok_trace env fuel sampler num_iters sample_spec iter_num w w' evs :
  run_validation env fuel sampler num_iters sample_spec iter_num w = (Ok tt, w', evs) →
  ∃ n passes w1 avg_losses avg_time,
    num_iters = PInt n
    ∧ validation_passes env fuel sampler sample_spec (Z.to_nat n)
        (clock env (ticks w)) (tick w) passes w1
    ∧ evs = [EvTime] ++ passes
            ++ [EvComputeAvgs iter_num "test";
                EvPrint (MsgTest iter_num avg_losses avg_time)]
    ∧ w' = with_monitor (compute_avgs iter_num "test") w1.
Proof.
  unfold run_validation.
  intros (start & w0 & e0 & e1 & Hstart & Hrun & ->)%bind_ok_inv.
  unfold time_time in Hstart. injection Hstart as <- <- <-.
  apply bind_ok_inv in Hrun as (n & w2 & e2 & e3 & (Hn & -> & ->)%lift_ok_inv & Hrun & ->).
  destruct num_iters as [n'|]; [|done]. injection Hn as ->.
  apply bind_ok_inv in Hrun as (losses & w3 & e4 & e5 & Hloop%run_validation_loop_passes & Hrun & ->).
  apply bind_ok_inv in Hrun as ([] & w4 & e6 & e7 & Hflush & Hrun & ->).
  unfold update_monitor in Hflush. injection Hflush as <- <-.
  destruct losses as [losses|]; [|done].
  apply bind_ok_inv in Hrun as (avg_losses & w5 & e8 & e9 & Havg & Hrun & ->).
  apply bind_ok_inv in Hrun as (avg_time & w6 & e10 & e11 & Htime & Hrun & ->).
  unfold emit in Hrun. injection Hrun as <- <-.
  assert (w5 = with_monitor (compute_avgs iter_num "test") w3 ∧ e8 = []) as [-> ->].
  { unfold avg_losses_of in Havg. rewrite run_bind in Havg. cbn in Havg.
    rewrite run_bind in Havg. cbn in Havg.
    destruct (mapM _ _) as [kvs| |]; cbn in Havg; by simplify_eq. }
  assert (w6 = with_monitor (compute_avgs iter_num "test") w3 ∧ e10 = []) as [-> ->].
  { unfold avg_time_of in Htime. rewrite run_bind in Htime. cbn in Htime.
    rewrite run_bind in Htime. cbn in Htime.
    destruct (get_last_value _ _ _) as [v| |]; cbn in Htime; by simplify_eq. }
  exists n, e4, w3, avg_losses, avg_time. split_and!; try done.
Qed.

(** C8: a validation run only requests samples from its own sampler, reads
    the clock, runs forward passes on volatile inputs, logs into the ["test"]
    phase and flushes that phase at [iter_num]; it calls no optimizer method,
    takes no optimizer step and leaves the ["train"] phase of the monitor as
    it was.  When it completes, it made exactly [num_iters] forward passes, each
    followed by the logging of its losses, counts and time, and one flush; with
    no iteration to run it made no pass and the one flush.  The whole trace of
    a completed run is the first clock reading, then the passes, each logging
    the losses and counts of [eval_error] on the predictions of that pass
    and the time since the previous clock reading, then the flush and the
    report. *)
Theorem run_validation_frame (env : Env) (fuel sampler : nat) (num_iters : pyval)
    (sample_spec : SampleSpec) (iter_num : Z) (w w' : World) (r : outcome unit)
    (evs : list Event) :
  run_validation env fuel sampler num_iters sample_spec iter_num w = (r, w', evs) →
  Forall (validation_event sampler iter_num) evs
  ∧ (EvZeroGrad ∉ evs) ∧ (∀ total, EvBackward total ∉ evs) ∧ (EvStep ∉ evs)
  ∧ nsteps w' = nsteps w
  ∧ (monitor w' !! "train"%string) = (monitor w !! "train"%string)
  ∧ (r = Ok tt →
     ∃ n, num_iters = PInt n
          ∧ flat_map kind evs
            = concat (replicate (Z.to_nat n) validation_pass) ++ [KFlush iter_num "test"])
  ∧ (∀ n, num_iters = PInt n → n ≤ 0 → flat_map kind evs = [KFlush iter_num "test"])
  ∧ (r = Ok tt →
     ∃ n passes w1 avg_losses avg_time,
       num_iters = PInt n
       ∧ validation_passes env fuel sampler sample_spec (Z.to_nat n)
           (clock env (ticks w)) (tick w) passes w1
       ∧ evs = [EvTime] ++ passes
               ++ [EvComputeAvgs iter_num "test";
                   EvPrint (MsgTest iter_num avg_losses avg_time)]
       ∧ w' = with_monitor (compute_avgs iter_num "test") w1).
Proof.
  intros Hrun.
  destruct (confined_run_validation train_side_untouched train_side_untouched_test
              env fuel sampler sample_spec iter_num num_iters) as [Hev Hw].
  specialize (Hev w). specialize (Hw w). rewrite Hrun in Hev, Hw. simpl in Hev, Hw.
  destruct Hw as [Hsteps Hmon]. rewrite Forall_forall in Hev.
  split_and!; try done.
  - by apply Forall_forall.
  - intros Hin. by apply Hev in Hin.
  - intros total Hin. by apply Hev in Hin.
  - intros Hin. by apply Hev in Hin.
  - intros ->. destruct (run_validation_ok_iters _ _ _ _ _ _ _ _ _ Hrun) as (n & -> & _).
    exists n. split; [done|]. by eapply yields_run_validation.
  - intros n -> Hn. rewrite run_validation_no_iters in Hrun by done. by simplify_eq.
  - intros ->. by apply run_validation_ok_trace.
Qed.

Lemma run_validation_frame_witness :
  ∃ w' evs,
    run_validation Fixture.env 3 1 (PInt 2) Fixture.spec 7 Fixture.world = (Ok tt, w', evs)
    ∧ nsteps w' = 0%nat
    ∧ flat_map kind evs = validation_pass ++ validation_pass ++ [KFlush 7 "test"]
    ∧ ∃ passes w1 avg_losses avg_time,
        validation_passes Fixture.env 3 1 Fixture.spec 2
          (clock Fixture.env (ticks Fixture.world)) (tick Fixture.world) passes w1
        ∧ evs = [EvTime] ++ passes
                ++ [EvComputeAvgs 7 "test"; EvPrint (MsgTest 7 avg_losses avg_time)].
Proof.
  assert ((run_validation Fixture.env 3 1 (PInt 2) Fixture.spec 7 Fixture.world).1.1 = Ok tt)
    as Hr by (vm_compute; reflexivity).
  destruct (run_validation Fixture.env 3 1 (PInt 2) Fixture.spec 7 Fixture.world)
    as [[r w'] evs] eqn:Hrun.
  simpl in Hr. subst r. exists w', evs. split; [reflexivity|].
  destruct (run_validation_frame _ _ _ _ _ _ _ _ _ _ Hrun)
    as (_ & _ & _ & _ & Hs & _ & Hk & _ & Hp).
  split; [exact Hs|]. destruct (Hk eq_refl) as (n & Hn & Hkinds).
  injection Hn as <-. split; [exact Hkinds|].
  destruct (Hp eq_refl) as (n & passes & w1 & avg_losses & avg_time & Hn & Hpasses & Hevs & _).
  injection Hn as <-. exists passes, w1, avg_losses, avg_time.
  split; [exact Hpasses|exact Hevs].
Defined.

(** C9: with no iteration to run, [run_validation] reads the clock, flushes
    the ["test"] phase without having logged anything, and then fails on the
    unbound variable [losses]; it can only complete when [num_iters] is at
    least one. *)
Theorem run_validation_needs_iters (env : Env) (fuel sampler : nat)
    (sample_spec : SampleSpec) (iter_num : Z) (w : World) :
  (∀ n, n ≤ 0 →
     run_validation env fuel sampler (PInt n) sample_spec iter_num w
     = (Raise (UnboundLocalError "losses"),
        with_monitor (compute_avgs iter_num "test") (tick w),
        [EvTime; EvComputeAvgs iter_num "test"]))
  ∧ (∀ num_iters w' evs,
       run_validation env fuel sampler num_iters sample_spec iter_num w = (Ok tt, w', evs) →
       ∃ n, num_iters = PInt n ∧ 1 ≤ n).
Proof.
  split.
  - intros n Hn. by apply run_validation_no_iters.
  - intros num_iters w' evs. apply run_validation_ok_iters.
Qed.

Lemma run_validation_needs_iters_witness :
  run_validation Fixture.env 3 1 (PInt 0) Fixture.spec 7 Fixture.world
  = (Raise (UnboundLocalError "losses"),
     with_monitor (compute_avgs 7 "test") (tick Fixture.world),
     [EvTime; EvComputeAvgs 7 "test"]).
Proof.
  apply (proj1 (run_validation_needs_iters Fixture.env 3 1 Fixture.spec 7 Fixture.world) 0).
  lia.
Defined.

(** ** The training loop *)

Lemma param_int_Ok params key z v :
  params !! key = Some (PInt z) → param_int params key = Ok v → v = z.
Proof. unfold param_int, py_lookup. intros ->. simpl. congruence. Qed.

Lemma py_mod_Ok i n r : py_mod i n = Ok r → r = i `mod` n.
Proof. unfold py_mod. case_match; congruence. Qed.

Lemma yields_update_model losses : yields mark [MStep] (update_model losses).
Proof.
  unfold update_model. eapply yields_eq.
  - apply yields_bind; [yield yields_emit|]. intros _.
    destruct ((map_to_list losses).*2); [by intros w a w' evs|].
    apply yields_bind; [yield yields_emit|]. intros _.
    by apply (yields_fixed _ _ [EvStep]).
  - reflexivity.
Qed.

Lemma yields_train_step env fuel sampler sample_spec mask_names start :
  yields mark [MStep] (train_step env fuel sampler sample_spec mask_names start).
Proof.
  unfold train_step. eapply yields_eq.
  - apply yields_bind; [by apply yields_fetch_nonempty_sample|]. intros sample.
    apply yields_bind; [apply yields_lift|]. intros [[inputs labels] masks].
    apply yields_bind; [yield yields_forward|]. intros preds.
    apply yields_bind; [apply yields_lift|]. intros [losses nmsks].
    apply yields_bind; [apply yields_update_model|]. intros _.
    apply yields_bind; [yield yields_log_errors|]. intros _.
    apply yields_bind; [yield yields_time_time|]. intros now.
    apply yields_bind; [yield yields_log_elapsed_time|]. intros _.
    apply yields_bind; [yield yields_time_time|]. intros start'.
    apply yields_ret.
  - reflexivity.
Qed.

Section Cadence.
Context (last_iter avgs_intv chkpt_intv : Z) (dir : string) (params : gmap string pyval).
Context (Havgs : params !! "avgs_intv"%string = Some (PInt avgs_intv)).
Context (Hchkpt : params !! "chkpt_intv"%string = Some (PInt chkpt_intv)).
Context (Hdir : params !! "expt_dir"%string = Some (PStr dir)).

Lemma yields_averages_cadence i losses :
  yields mark (averages_marks last_iter avgs_intv i)
    (averages_cadence last_iter params i losses).
Proof.
  unfold averages_cadence, averages_marks.
  apply yields_lift_bind. intros a ->%(param_int_Ok _ _ _ _ Havgs).
  apply yields_lift_bind. intros r ->%py_mod_Ok.
  destruct ((i `mod` avgs_intv =? 0) && negb (i =? last_iter)); [|apply yields_ret].
  eapply yields_eq.
  - apply yields_bind; [yield yields_update_monitor|]. intros _.
    apply yields_bind; [apply yields_avg_losses_of|]. intros avg_losses.
    apply yields_bind; [apply yields_avg_time_of|]. intros avg_time.
    yield yields_emit.
  - reflexivity.
Qed.

Lemma yields_checkpoint_cadence i :
  yields mark (checkpoint_marks last_iter chkpt_intv dir i)
    (checkpoint_cadence last_iter params i).
Proof.
  unfold checkpoint_cadence, checkpoint_marks.
  apply yields_lift_bind. intros c ->%(param_int_Ok _ _ _ _ Hchkpt).
  apply yields_lift_bind. intros r ->%py_mod_Ok.
  destruct ((i `mod` chkpt_intv =? 0) && negb (i =? last_iter)); [|apply yields_ret].
  eapply yields_eq.
  - apply yields_bind; [yield yields_emit|]. intros _.
    apply yields_lift_bind. unfold py_lookup. rewrite Hdir. intros d [= <-].
    apply yields_bind; [yield yields_emit|]. intros _.
    yield yields_emit.
  - reflexivity.
Qed.

Lemma yields_train_iteration env fuel sampler sample_spec mask_names i start :
  yields mark (iteration_marks last_iter avgs_intv chkpt_intv dir i)
    (train_iteration env fuel sampler None last_iter params sample_spec mask_names i start).
Proof.
  unfold train_iteration, iteration_marks. eapply yields_eq.
  - apply yields_bind; [apply yields_train_step|]. intros [losses start'].
    apply yields_bind; [apply yields_ret|]. intros start''.
    apply yields_bind; [apply yields_averages_cadence|]. intros _.
    apply yields_bind; [apply yields_checkpoint_cadence|]. intros _.
    apply yields_ret.
  - simpl. by rewrite app_nil_r.
Qed.

Lemma yields_train_loop env fuel sampler sample_spec mask_names iters : ∀ start,
  yields mark (flat_map (iteration_marks last_iter avgs_intv chkpt_intv dir) iters)
    (train_loop env fuel sampler None last_iter params sample_spec mask_names iters start).
Proof.
  induction iters as [|i iters IH]; intros start; cbn [train_loop flat_map];
    [apply yields_ret|].
  apply yields_bind; [apply yields_train_iteration|]. intros start'. apply IH.
Qed.

Lemma yields_train env fuel sampler max_iter :
  params !! "max_iter"%string = Some (PInt max_iter) →
  yields mark
    (flat_map (iteration_marks last_iter avgs_intv chkpt_intv dir)
       (seqZ last_iter (max_iter - last_iter)))
    (train env fuel sampler None last_iter params).
Proof.
  intros Hmax. unfold train. destruct (params_defined params); [|by intros w a w' evs].
  eapply yields_eq.
  - apply yields_bind; [yield yields_update_monitor|]. intros _.
    apply yields_bind; [by apply (yields_fixed _ _ [EvGet sampler])|]. intros sample.
    apply yields_bind; [apply yields_lift|]. intros sample_spec.
    apply yields_bind; [yield yields_time_time|]. intros start.
    apply yields_bind; [yield yields_emit|]. intros _.
    apply yields_lift_bind. intros m ->%(param_int_Ok _ _ _ _ Hmax).
    apply yields_train_loop.
  - reflexivity.
Qed.
End Cadence.

(** C2: with [max_iter=10], [avgs_intv=5], [chkpt_intv=5], [test_intv=100],
    [last_iter=0] and no validation sampler, a completed run takes its ten
    optimizer steps (iterations 0 to 9) and flushes, reports and saves exactly
    once, after the sixth step, that is at iteration 5; nothing of the
    ["test"] phase occurs. *)
Theorem train_cadence_example (env : Env) (fuel sampler : nat) (params : gmap string pyval)
    (dir : string) (w w' : World) (evs : list Event) :
  params !! "max_iter"%string = Some (PInt 10) →
  params !! "avgs_intv"%string = Some (PInt 5) →
  params !! "chkpt_intv"%string = Some (PInt 5) →
  params !! "test_intv"%string = Some (PInt 100) →
  params !! "expt_dir"%string = Some (PStr dir) →
  train env fuel sampler None 0 params w = (Ok tt, w', evs) →
  flat_map mark evs
  = replicate 6 MStep
    ++ [MFlush 5 "train"; MPrintAvgs 5; MPrintSave 5;
        MSaveModel (path_join (path_join dir "models") "model5.ckpt");
        MSaveStats (path_join (path_join dir "logs") "stats_5.h5") 5]
    ++ replicate 4 MStep.
Proof.
  intros Hmax Havgs Hchkpt _ Hdir Hrun.
  by rewrite (yields_train 0 5 5 dir params Havgs Hchkpt Hdir env fuel sampler 10 Hmax
                _ _ _ _ Hrun).
Qed.

Lemma train_cadence_example_witness :
  ∃ w' evs,
    train Fixture.env 3 0 None 0 (Fixture.params 10 100 2 5 5) Fixture.world = (Ok tt, w', evs)
    ∧ flat_map mark evs
      = replicate 6 MStep
        ++ [MFlush 5 "train"; MPrintAvgs 5; MPrintSave 5;
            MSaveModel "expt/models/model5.ckpt"; MSaveStats "expt/logs/stats_5.h5" 5]
        ++ replicate 4 MStep.
Proof.
  assert ((train Fixture.env 3 0 None 0 (Fixture.params 10 100 2 5 5) Fixture.world).1.1
          = Ok tt) as Hr by (vm_compute; reflexivity).
  destruct (train Fixture.env 3 0 None 0 (Fixture.params 10 100 2 5 5) Fixture.world)
    as [[r w'] evs] eqn:Hrun.
  simpl in Hr. subst r. exists w', evs. split; [reflexivity|].
  exact (train_cadence_example Fixture.env 3 0 (Fixture.params 10 100 2 5 5) "expt"
           Fixture.world w' evs eq_refl eq_refl eq_refl eq_refl eq_refl Hrun).
Defined.

Lemma tolerates_any_change phase : tolerates any_change phase.
Proof. done. Qed.

Lemma confined_update_model (P : Event → Prop) losses :
  P EvZeroGrad → (∀ total, P (EvBackward total)) → P EvStep →
  confined P any_change (update_model losses).
Proof.
  intros Hz Hb Hs. unfold update_model. conf confined_bind; [by conf confined_emit|].
  intros _. destruct ((map_to_list losses).*2); [by conf confined_raise|].
  conf confined_bind; [by conf confined_emit|]. intros _. by conf confined_optimizer_step.
Qed.

Section ConfinedTrain.
Context (P : Event → Prop).
Context (env : Env) (fuel sampler : nat) (val_sampler : option nat) (last_iter : Z).
Context (params : gmap string pyval) (sample_spec : SampleSpec) (mask_names : list string).

Lemma confined_train_step start :
  (∀ e, train_step_event sampler e → P e) →
  confined P any_change (train_step env fuel sampler sample_spec mask_names start).
Proof.
  intros HP. apply (confined_mono (train_step_event sampler)); [done|]. unfold train_step.
  conf confined_bind; [by conf confined_fetch_nonempty_sample|]. intros sample.
  conf confined_bind; [conf confined_lift|]. intros [[inputs labels] masks].
  conf confined_bind; [by conf confined_forward|]. intros preds.
  conf confined_bind; [conf confined_lift|]. intros [losses nmsks].
  conf confined_bind; [by conf confined_update_model|]. intros _.
  conf confined_bind; [by conf confined_log_errors|]. intros _.
  conf confined_bind; [by conf confined_time_time|]. intros now.
  conf confined_bind; [by conf confined_log_elapsed_time|]. intros _.
  conf confined_bind; [by conf confined_time_time|]. intros start'.
  conf confined_ret.
Qed.

Lemma confined_validation_cadence i start :
  (∀ vs e, val_sampler = Some vs → validation_event vs i e → P e) →
  confined P any_change
    (validation_cadence env fuel val_sampler params sample_spec i start).
Proof.
  intros HP. unfold validation_cadence. destruct val_sampler as [vs|]; [|conf confined_ret].
  apply (confined_mono (validation_event vs i)); [intros e; by apply HP|].
  conf confined_bind; [conf confined_lift|]. intros test_intv.
  conf confined_bind; [conf confined_lift|]. intros r.
  destruct (r =? 0); [|conf confined_ret].
  conf confined_bind; [conf confined_lift|]. intros test_iter.
  conf confined_bind; [|intros _; by conf confined_time_time].
  conf confined_run_validation. apply tolerates_any_change.
Qed.

Lemma confined_averages_cadence i losses :
  (∀ e, cadence_event last_iter i e → P e) →
  confined P any_change (averages_cadence last_iter params i losses).
Proof.
  intros HP. apply (confined_mono (cadence_event last_iter i)); [done|].
  unfold averages_cadence.
  conf confined_bind; [conf confined_lift|]. intros avgs_intv.
  conf confined_bind; [conf confined_lift|]. intros r.
  destruct (Z.eqb_spec i last_iter) as [->|Hne];
    [rewrite andb_false_r; conf confined_ret|].
  destruct (r =? 0); [|conf confined_ret]. simpl.
  conf confined_bind; [by conf confined_update_monitor|]. intros _.
  conf confined_bind; [conf confined_avg_losses_of|]. intros avg_losses.
  conf confined_bind; [conf confined_avg_time_of|]. intros avg_time.
  by conf confined_emit.
Qed.

Lemma confined_checkpoint_cadence i :
  (∀ e, cadence_event last_iter i e → P e) →
  confined P any_change (checkpoint_cadence last_iter params i).
Proof.
  intros HP. apply (confined_mono (cadence_event last_iter i)); [done|].
  unfold checkpoint_cadence.
  conf confined_bind; [conf confined_lift|]. intros chkpt_intv.
  conf confined_bind; [conf confined_lift|]. intros r.
  destruct (Z.eqb_spec i last_iter) as [->|Hne];
    [rewrite andb_false_r; conf confined_ret|].
  destruct (r =? 0); [|conf confined_ret]. simpl.
  conf confined_bind; [by conf confined_emit|]. intros _.
  conf confined_bind; [conf confined_lift|]. intros [z|d]; [conf confined_raise|].
  conf confined_bind; [by conf confined_emit|]. intros _. by conf confined_emit.
Qed.

Lemma confined_train_iteration i start :
  (∀ e, train_step_event sampler e → P e) →
  (∀ vs e, val_sampler = Some vs → validation_event vs i e → P e) →
  (∀ e, cadence_event last_iter i e → P e) →
  confined P any_change
    (train_iteration env fuel sampler val_sampler last_iter params sample_spec
       mask_names i start).
Proof.
  intros Hs Hv Hc. unfold train_iteration.
  conf confined_bind; [by apply confined_train_step|]. intros [losses start'].
  conf confined_bind; [by apply confined_validation_cadence|]. intros start''.
  conf confined_bind; [by apply confined_averages_cadence|]. intros _.
  conf confined_bind; [by apply confined_checkpoint_cadence|]. intros _.
  conf confined_ret.
Qed.
End ConfinedTrain.

Lemma bind_events_ok {A B} (m : M A) (f : A → M B) w a w1 e1 :
  m w = (Ok a, w1, e1) → ((m ≫= f) w).2 = e1 ++ (f a w1).2.
Proof. intros Hm. by rewrite run_bind, Hm. Qed.

Lemma bind_events_prefix {A B} (m : M A) (f : A → M B) w :
  ∃ rest, ((m ≫= f) w).2 = (m w).2 ++ rest.
Proof.
  rewrite run_bind. destruct (m w) as [[[a|e|] w1] e1]; simpl.
  - by eexists.
  - exists []. by rewrite app_nil_r.
  - exists []. by rewrite app_nil_r.
Qed.

(** C4: in iteration [i], once the training step has succeeded, the
    validation run is executed whenever there is a validation sampler and
    [i % test_intv == 0], with no condition on [i] and [last_iter]; whereas an
    iteration with [i = last_iter] never flushes the ["train"] phase, reports
    averages or saves a checkpoint. *)
Theorem train_iteration_cadence (env : Env) (fuel sampler : nat) (val_sampler : option nat)
    (last_iter : Z) (params : gmap string pyval) (sample_spec : SampleSpec)
    (mask_names : list string) (i : Z) (start : Q) (w w' : World) (r : outcome Q)
    (evs : list Event) :
  train_iteration env fuel sampler val_sampler last_iter params sample_spec mask_names
    i start w = (r, w', evs) →
  (∀ vs test_intv test_iter losses start1 w1 e1,
     val_sampler = Some vs →
     params !! "test_intv"%string = Some (PInt test_intv) → test_intv ≠ 0 →
     i `mod` test_intv = 0 →
     params !! "test_iter"%string = Some test_iter →
     train_step env fuel sampler sample_spec mask_names start w = (Ok (losses, start1), w1, e1) →
     ∃ rest, evs = e1 ++ (run_validation env fuel vs test_iter sample_spec i w1).2 ++ rest)
  ∧ (i = last_iter → Forall (fun e => ¬ train_flush_or_checkpoint e) evs).
Proof.
  intros Hrun. split.
  - intros vs test_intv test_iter losses start1 w1 e1 -> Hintv Hnz Hmod Hiter Hstep.
    apply (f_equal snd) in Hrun. simpl in Hrun. subst evs. unfold train_iteration.
    rewrite (bind_events_ok _ _ _ _ _ _ Hstep).
    destruct (bind_events_prefix
                (validation_cadence env fuel (Some vs) params sample_spec i start1)
                (fun start => averages_cadence last_iter params i losses;;
                              checkpoint_cadence last_iter params i;; mret start) w1)
      as [rest1 ->].
    unfold validation_cadence, param_int, py_lookup, py_mod. rewrite Hintv, Hiter. cbn.
    rewrite lift_bind_run. apply Z.eqb_neq in Hnz. rewrite Hnz, lift_bind_run, Hmod. cbn.
    rewrite lift_bind_run.
    destruct (bind_events_prefix (run_validation env fuel vs test_iter sample_spec i)
                (fun _ => time_time env) w1) as [rest2 ->].
    exists (rest2 ++ rest1). by rewrite <- !app_assoc.
  - intros ->.
    destruct (confined_train_iteration (fun e => ¬ train_flush_or_checkpoint e)
                env fuel sampler val_sampler last_iter params sample_spec mask_names
                last_iter start) as [Hev _].
    + intros e He. destruct e; simpl in *; tauto.
    + intros vs e _ He. destruct e as [| | | | | | | | |j phase|msg| |]; simpl in *;
        try tauto.
      * destruct He as [_ ->]. discriminate.
      * destruct msg; tauto.
    + intros e He. destruct e as [| | | | | | | | | |msg| |]; simpl in *;
        try destruct msg; tauto.
    + specialize (Hev w). by rewrite Hrun in Hev.
Qed.

Lemma train_iteration_cadence_witness :
  ∃ e1 w1 rest,
    (train_iteration Fixture.env 3 0 (Some 1%nat) 0 (Fixture.params 10 100 2 5 5)
       Fixture.spec ["label_mask"%string] 0 0%Q Fixture.world).2
    = e1 ++ (run_validation Fixture.env 3 1 (PInt 2) Fixture.spec 0 w1).2 ++ rest
    ∧ Forall (fun e => ¬ train_flush_or_checkpoint e)
        (train_iteration Fixture.env 3 0 (Some 1%nat) 0 (Fixture.params 10 100 2 5 5)
           Fixture.spec ["label_mask"%string] 0 0%Q Fixture.world).2.
Proof.
  assert (∃ v, (train_step Fixture.env 3 0 Fixture.spec ["label_mask"%string] 0%Q
                  Fixture.world).1.1 = Ok v) as [[losses start1] Hr]
    by (vm_compute; by eexists).
  destruct (train_step Fixture.env 3 0 Fixture.spec ["label_mask"%string] 0%Q Fixture.world)
    as [[r1 w1] e1] eqn:Hstep.
  simpl in Hr. subst r1.
  destruct (train_iteration Fixture.env 3 0 (Some 1%nat) 0 (Fixture.params 10 100 2 5 5)
              Fixture.spec ["label_mask"%string] 0 0%Q Fixture.world)
    as [[r w'] evs] eqn:Hrun.
  destruct (train_iteration_cadence _ _ _ _ _ _ _ _ _ _ _ _ _ _ Hrun) as [Hval Hguard].
  destruct (Hval 1%nat 100 (PInt 2) losses start1 w1 e1 eq_refl eq_refl ltac:(lia)
              eq_refl eq_refl Hstep) as [rest Hevs].
  exists e1, w1, rest. split; [exact Hevs|exact (Hguard eq_refl)].
Defined.

(** ** The sample drawn before the loop *)

Lemma tally_surplus sampler evs :
  tally (surplus sampler) evs = tally (requests sampler) evs - tally steps evs.
Proof. induction evs as [|e evs IH]; simpl; [done|]. unfold surplus at 1. lia. Qed.

Lemma advance_replace_next sampler sample f w :
  advance sampler (with_monitor f (replace_next sampler sample w))
  = advance sampler (with_monitor f w).
Proof.
  unfold advance, with_monitor, replace_next. simpl. f_equal.
  apply functional_extensionality. intros s. destruct (decide (s = sampler)) as [->|Hs].
  - apply functional_extensionality. intros n. by rewrite decide_False by lia.
  - apply functional_extensionality. intros n. rewrite decide_False; [done|]. tauto.
Qed.

(** A computation whose trace is the same in every world. *)
Lemma at_least_fixed {A} (wt : Event → Z) (m : M A) evs k :
  (∀ w, (m w).2 = evs) → k ≤ tally wt evs → at_least wt k m.
Proof. intros Hm Hk w. by rewrite Hm. Qed.

Tactic Notation "fixed_trace" := eapply at_least_fixed; [intros ?; cbn; reflexivity|done].

Section Surplus.
Context (env : Env) (fuel sampler : nat) (val_sampler : option nat) (last_iter : Z).
Context (params : gmap string pyval) (sample_spec : SampleSpec) (mask_names : list string).

Lemma at_least_confined {A} (m : M A) k :
  confined (fun e => 0 ≤ surplus sampler e) any_change m → k ≤ 0 →
  at_least (surplus sampler) k m.
Proof.
  intros [Hm _] Hk w. etrans; [exact Hk|].
  by apply (emits_at_least m (surplus sampler) (fun e => 0 ≤ surplus sampler e)).
Qed.

Lemma surplus_get : surplus sampler (EvGet sampler) = 1.
Proof. unfold surplus. simpl. by rewrite decide_True. Qed.

Lemma at_least_fetch_nonempty_sample masks :
  at_least (surplus sampler) 1 (fetch_nonempty_sample fuel sampler masks).
Proof.
  unfold fetch_nonempty_sample. apply (at_least_bind _ _ _ 1 0); [| |lia..].
  - apply (at_least_fixed _ _ [EvGet sampler]); [done|]. simpl. rewrite surplus_get. lia.
  - intros sample. apply at_least_confined; [|lia].
    conf confined_bind; [|intros s; conf confined_ret].
    conf confined_fetch_loop. rewrite surplus_get. lia.
Qed.

Lemma at_least_update_model losses : at_least (surplus sampler) (-1) (update_model losses).
Proof.
  unfold update_model. apply (at_least_bind _ _ _ 0 (-1)); [| |lia..].
  - fixed_trace.
  - intros _. destruct ((map_to_list losses).*2).
    + fixed_trace.
    + apply (at_least_bind _ _ _ 0 (-1)); [| |lia..].
      * fixed_trace.
      * intros _. fixed_trace.
Qed.

Lemma at_least_train_step start :
  at_least (surplus sampler) 0 (train_step env fuel sampler sample_spec mask_names start).
Proof.
  unfold train_step.
  apply (at_least_bind _ _ _ 1 (-1)); [apply at_least_fetch_nonempty_sample| |lia..].
  intros sample. apply (at_least_bind _ _ _ 0 (-1)); [fixed_trace| |lia..].
  intros [[inputs labels] masks].
  apply (at_least_bind _ _ _ 0 (-1)); [fixed_trace| |lia..].
  intros preds. apply (at_least_bind _ _ _ 0 (-1)); [fixed_trace| |lia..].
  intros [losses nmsks].
  apply (at_least_bind _ _ _ (-1) 0); [apply at_least_update_model| |lia..].
  intros _. apply at_least_confined; [|lia].
  conf confined_bind; [by conf confined_log_errors|]. intros _.
  conf confined_bind; [by conf confined_time_time|]. intros now.
  conf confined_bind; [by conf confined_log_elapsed_time|]. intros _.
  conf confined_bind; [by conf confined_time_time|]. intros start'.
  conf confined_ret.
Qed.

Lemma at_least_train_iteration i start :
  at_least (surplus sampler) 0
    (train_iteration env fuel sampler val_sampler last_iter params sample_spec
       mask_names i start).
Proof.
  unfold train_iteration.
  apply (at_least_bind _ _ _ 0 0); [apply at_least_train_step| |lia..].
  intros [losses start']. apply at_least_confined; [|lia].
  conf confined_bind; [apply confined_validation_cadence|].
  { intros vs e _ He. destruct e; simpl in *; try done. unfold surplus. simpl.
    case_decide; lia. }
  intros start''. conf confined_bind; [apply confined_averages_cadence|].
  { intros e He. by destruct e. }
  intros _. conf confined_bind; [apply confined_checkpoint_cadence|].
  { intros e He. by destruct e. }
  intros _. conf confined_ret.
Qed.

Lemma at_least_train_loop iters : ∀ start,
  at_least (surplus sampler) 0
    (train_loop env fuel sampler val_sampler last_iter params sample_spec
       mask_names iters start).
Proof.
  induction iters as [|i iters IH]; intros start; simpl.
  - fixed_trace.
  - apply (at_least_bind _ _ _ 0 0); [apply at_least_train_iteration| |lia..].
    intros start'. apply IH.
Qed.
End Surplus.

Lemma train_events (env : Env) (fuel sampler : nat) (val_sampler : option nat)
    (last_iter : Z) (params : gmap string pyval) (w : World) :
  params_defined params = true →
  ∃ evs', (train env fuel sampler val_sampler last_iter params w).2
          = EvNewMonitor :: EvGet sampler :: evs'
          ∧ 0 ≤ tally (surplus sampler) evs'.
Proof.
  intros Hdef. unfold train. rewrite Hdef, run_bind. cbn. rewrite run_bind. cbn.
  eexists. split; [reflexivity|].
  match goal with
  | |- _ ≤ tally _ (?m ?w1).2 => enough (at_least (surplus sampler) 0 m) as H by apply H
  end.
  apply (at_least_bind _ _ _ 0 0); [| |lia..].
  { fixed_trace. }
  intros sample_spec. apply (at_least_bind _ _ _ 0 0); [| |lia..].
  { fixed_trace. }
  intros start. apply (at_least_bind _ _ _ 0 0); [| |lia..].
  { fixed_trace. }
  intros _. apply (at_least_bind _ _ _ 0 0); [| |lia..].
  { fixed_trace. }
  intros max_iter. apply at_least_train_loop.
Qed.

(** C10: a run that passes the configuration check first creates the monitor
    and requests one sample from the training sampler; the rest of the run
    depends on that sample through its field names only (any sample with the
    same field names in its place gives the same run), and the training
    sampler is requested at least once more than optimizer steps are taken. *)
Theorem train_first_sample (env : Env) (fuel sampler : nat) (val_sampler : option nat)
    (last_iter : Z) (params : gmap string pyval) (w : World) :
  params_defined params = true →
  (∃ evs', (train env fuel sampler val_sampler last_iter params w).2
           = EvNewMonitor :: EvGet sampler :: evs')
  ∧ tally steps (train env fuel sampler val_sampler last_iter params w).2 + 1
    ≤ tally (requests sampler) (train env fuel sampler val_sampler last_iter params w).2
  ∧ (∀ sample, dom sample = dom (samplers w sampler 0%nat) →
       train env fuel sampler val_sampler last_iter params (replace_next sampler sample w)
       = train env fuel sampler val_sampler last_iter params w).
Proof.
  intros Hdef. split_and!.
  - destruct (train_events env fuel sampler val_sampler last_iter params w Hdef)
      as (evs' & Hevs & _). by exists evs'.
  - destruct (train_events env fuel sampler val_sampler last_iter params w Hdef)
      as (evs' & -> & Hsurplus).
    rewrite tally_surplus in Hsurplus. simpl. rewrite decide_True by done. lia.
  - intros sample Hdom. unfold train. rewrite Hdef, !run_bind. cbn. rewrite !run_bind. cbn.
    rewrite advance_replace_next, decide_True, Hdom by done. reflexivity.
Qed.

Lemma train_first_sample_witness :
  tally steps (train Fixture.env 3 0 None 0 (Fixture.params 10 100 2 5 5) Fixture.world).2 + 1
  ≤ tally (requests 0)
      (train Fixture.env 3 0 None 0 (Fixture.params 10 100 2 5 5) Fixture.world).2
  ∧ train Fixture.env 3 0 None 0 (Fixture.params 10 100 2 5 5)
      (replace_next 0 Fixture.good_sample Fixture.world)
    = train Fixture.env 3 0 None 0 (Fixture.params 10 100 2 5 5) Fixture.world.
Proof.
  destruct (train_first_sample Fixture.env 3 0 None 0 (Fixture.params 10 100 2 5 5)
              Fixture.world eq_refl) as (_ & Hcount & Hsame).
  split; [exact Hcount|]. apply Hsame. vm_compute. reflexivity.
Defined.

(** * Further properties of the code *)

(** ** Creating the variables of a sample *)

Section MakeVariables.
Context (sample : Sample) (mode : grad_mode).

Lemma wrap_Ok k v :
  (py_lookup sample k ≫= fun t => mret (make_variable t mode)) = Ok v ↔ wraps sample mode k v.
Proof.
  unfold py_lookup, wraps. destruct (sample !! k) as [t|]; simpl.
  - split.
    + intros [= <-]. done.
    + intros [[= ->] <-]. by destruct v.
  - split; [done|]. by intros [? _].
Qed.

Lemma mapM_wrap_Ok names vs :
  mapM (fun k => py_lookup sample k ≫= fun t => mret (make_variable t mode)) names = Ok vs
  ↔ Forall2 (wraps sample mode) names vs.
Proof.
  revert vs. induction names as [|k names IH]; intros vs; simpl.
  - split; [intros [= <-]; constructor|by intros ->%Forall2_nil_inv_l].
  - destruct (py_lookup sample k ≫= _) as [v| |] eqn:Hk; simpl.
    + apply wrap_Ok in Hk.
      destruct (mapM _ names) as [vs'| |] eqn:Hrest; simpl.
      * split.
        -- intros [= <-]. constructor; [done|]. by apply IH.
        -- intros (v' & vs'' & [Hv Hm] & Hvs & ->)%Forall2_cons_inv_l.
           apply IH in Hvs. injection Hvs as <-.
           destruct Hk as [Hk1 Hk2]. destruct v, v'. simpl in *. by simplify_eq.
      * split; [done|]. intros (v' & vs'' & _ & Hvs & ->)%Forall2_cons_inv_l.
        by apply IH in Hvs.
      * split; [done|]. intros (v' & vs'' & _ & Hvs & ->)%Forall2_cons_inv_l.
        by apply IH in Hvs.
    + split; [done|]. intros (v' & vs'' & Hv & _ & ->)%Forall2_cons_inv_l.
      apply wrap_Ok in Hv. congruence.
    + split; [done|]. intros (v' & vs'' & Hv & _ & ->)%Forall2_cons_inv_l.
      apply wrap_Ok in Hv. congruence.
Qed.

(** The list comprehension over [names] either succeeds, all names being
    fields of the sample, or fails on a name that is not. *)
Lemma mapM_wrap_cases names :
  (∃ vs, mapM (fun k => py_lookup sample k ≫= fun t => mret (make_variable t mode)) names
         = Ok vs
         ∧ Forall (fun k => is_Some (sample !! k)) names)
  ∨ (∃ k, mapM (fun k => py_lookup sample k ≫= fun t => mret (make_variable t mode)) names
          = Raise (KeyError k)
          ∧ k ∈ names ∧ sample !! k = None).
Proof.
  induction names as [|k names IH]; simpl.
  - left. eexists. split; [done|constructor].
  - destruct (sample !! k) as [t|] eqn:Hk.
    + assert ((py_lookup sample k ≫= fun t => mret (make_variable t mode))
              = Ok (make_variable t mode)) as -> by (unfold py_lookup; by rewrite Hk).
      simpl. destruct IH as [(vs & Hvs & Hall)|(k' & Hk' & Hin & Hnone)].
      * rewrite Hvs. simpl. left. eexists. split; [done|]. constructor; [by rewrite Hk|done].
      * rewrite Hk'. simpl. right. exists k'. split_and!; [done|by right|done].
    + assert ((py_lookup sample k ≫= fun t => mret (make_variable t mode))
              = Raise (KeyError k)) as -> by (unfold py_lookup; by rewrite Hk).
      simpl. right. exists k. split_and!; [done|by left|done].
Qed.
End MakeVariables.

Lemma make_variables_unfold sample sample_spec phase :
  make_variables sample sample_spec phase =
  (input_vars ←
     match input_mode phase with
     | Some mode =>
         Some <$> mapM (fun k => py_lookup sample k ≫= fun t => mret (make_variable t mode))
                    (get_inputs sample_spec)
     | None => Ok None
     end;
   label_vars ← mapM (fun k => py_lookup sample k
                               ≫= fun t => mret (make_variable t (RequiresGrad false)))
                  (get_labels sample_spec);
   mask_vars ← mapM (fun k => py_lookup sample k
                              ≫= fun t => mret (make_variable t (RequiresGrad false)))
                 (get_masks sample_spec);
   match input_vars with
   | Some input_vars => Ok (input_vars, label_vars, mask_vars)
   | None => Raise (UnboundLocalError "input_vars")
   end).
Proof. unfold make_variables, input_mode. by repeat case_bool_decide. Qed.

(** X1: what [make_variables] returns: the phase is ["train"] or ["test"], and
    the three lists follow the input, label and mask names of the
    [SampleSpec] in order, each variable wrapping the field of that name:
    inputs with the gradient mode of the phase, labels and masks without
    gradient. *)
Theorem make_variables_content (sample : Sample) (sample_spec : SampleSpec) (phase : string)
    (input_vars label_vars mask_vars : list Var) :
  make_variables sample sample_spec phase = Ok (input_vars, label_vars, mask_vars) →
  ∃ mode, input_mode phase = Some mode
    ∧ Forall2 (wraps sample mode) (get_inputs sample_spec) input_vars
    ∧ Forall2 (wraps sample (RequiresGrad false)) (get_labels sample_spec) label_vars
    ∧ Forall2 (wraps sample (RequiresGrad false)) (get_masks sample_spec) mask_vars.
Proof.
  rewrite make_variables_unfold. destruct (input_mode phase) as [mode|]; simpl.
  - destruct (mapM _ (get_inputs sample_spec)) as [ivs| |] eqn:Hi; simpl; try done.
    destruct (mapM _ (get_labels sample_spec)) as [lvs| |] eqn:Hl; simpl; try done.
    destruct (mapM _ (get_masks sample_spec)) as [mvs| |] eqn:Hm; simpl; try done.
    intros [= <- <- <-]. exists mode. by rewrite <- !mapM_wrap_Ok.
  - destruct (mapM _ (get_labels sample_spec)) as [lvs| |]; simpl; try done.
    destruct (mapM _ (get_masks sample_spec)) as [mvs| |]; simpl; done.
Qed.

Lemma make_variables_content_witness :
  ∃ mode, input_mode "test" = Some mode
    ∧ Forall2 (wraps (expand_dims <$> Fixture.good_sample) mode) ["input"%string]
        [mkVar (expand_dims Fixture.t_input) Volatile].
Proof.
  assert (make_variables (expand_dims <$> Fixture.good_sample) Fixture.spec "test"
          = Ok ([mkVar (expand_dims Fixture.t_input) Volatile],
                [mkVar (expand_dims Fixture.t_label) (RequiresGrad false)],
                [mkVar (expand_dims Fixture.t_mask) (RequiresGrad false)])) as Hrun
    by (vm_compute; reflexivity).
  destruct (make_variables_content _ _ _ _ _ _ Hrun) as (mode & Hmode & Hin & _).
  exists mode. split; [exact Hmode|exact Hin].
Defined.

(** X2: [make_variables] returns normally exactly when the phase is ["train"]
    or ["test"] and every input, label and mask name of the [SampleSpec] is a
    field of the sample. *)
Theorem make_variables_returns (sample : Sample) (sample_spec : SampleSpec) (phase : string) :
  (∃ r, make_variables sample sample_spec phase = Ok r)
  ↔ (phase = "train"%string ∨ phase = "test"%string)
    ∧ ∀ k, k ∈ get_inputs sample_spec ++ get_labels sample_spec ++ get_masks sample_spec →
           is_Some (sample !! k).
Proof.
  rewrite make_variables_unfold. unfold input_mode. split.
  - intros [r Hr].
    assert (phase = "train"%string ∨ phase = "test"%string) as Hphase.
    { repeat case_bool_decide; auto. simpl in Hr.
      destruct (mapM _ (get_labels sample_spec)); simpl in Hr; try done.
      destruct (mapM _ (get_masks sample_spec)); simpl in Hr; done. }
    split; [done|]. intros k Hk.
    assert (∃ mode, (Some <$> mapM (fun k => py_lookup sample k
                                      ≫= fun t => mret (make_variable t mode))
                                (get_inputs sample_spec)) ≫= (fun input_vars =>
              label_vars ← mapM (fun k => py_lookup sample k
                                   ≫= fun t => mret (make_variable t (RequiresGrad false)))
                             (get_labels sample_spec);
              mask_vars ← mapM (fun k => py_lookup sample k
                                   ≫= fun t => mret (make_variable t (RequiresGrad false)))
                             (get_masks sample_spec);
              match input_vars with
              | Some input_vars => Ok (input_vars, label_vars, mask_vars)
              | None => Raise (UnboundLocalError "input_vars")
              end) = Ok r) as [mode Hrun].
    { destruct Hphase as [->| ->]; simpl in Hr; eauto. }
    clear Hr.
    destruct (mapM_wrap_cases sample mode (get_inputs sample_spec))
      as [(ivs & Hi & Hai)|(k' & Hi & _)]; rewrite Hi in Hrun; simpl in Hrun; [|done].
    destruct (mapM_wrap_cases sample (RequiresGrad false) (get_labels sample_spec))
      as [(lvs & Hl & Hal)|(k' & Hl & _)]; rewrite Hl in Hrun; simpl in Hrun; [|done].
    destruct (mapM_wrap_cases sample (RequiresGrad false) (get_masks sample_spec))
      as [(mvs & Hm & Ham)|(k' & Hm & _)]; rewrite Hm in Hrun; simpl in Hrun; [|done].
    rewrite Forall_forall in Hai, Hal, Ham.
    apply elem_of_app in Hk as [Hk|Hk]; [by apply Hai|].
    apply elem_of_app in Hk as [Hk|Hk]; [by apply Hal|by apply Ham].
  - intros [Hphase Hall].
    assert (∀ mode names, (∀ k, k ∈ names → is_Some (sample !! k)) →
              ∃ vs, mapM (fun k => py_lookup sample k
                            ≫= fun t => mret (make_variable t mode)) names = Ok vs)
      as Hlist.
    { intros mode names Hnames.
      destruct (mapM_wrap_cases sample mode names) as [(vs & Hvs & _)|(k & _ & Hin & Hnone)];
        [by exists vs|].
      destruct (Hnames k Hin) as [t Ht]. congruence. }
    destruct (Hlist (RequiresGrad false) (get_labels sample_spec)) as [lvs Hl].
    { intros k Hk. apply Hall. rewrite !elem_of_app. auto. }
    destruct (Hlist (RequiresGrad false) (get_masks sample_spec)) as [mvs Hm].
    { intros k Hk. apply Hall. rewrite !elem_of_app. auto. }
    destruct Hphase as [->| ->]; simpl.
    + destruct (Hlist (RequiresGrad true) (get_inputs sample_spec)) as [ivs Hi].
      { intros k Hk. apply Hall. rewrite !elem_of_app. auto. }
      rewrite Hi. simpl. rewrite Hl. simpl. rewrite Hm. simpl. by eexists.
    + destruct (Hlist Volatile (get_inputs sample_spec)) as [ivs Hi].
      { intros k Hk. apply Hall. rewrite !elem_of_app. auto. }
      rewrite Hi. simpl. rewrite Hl. simpl. rewrite Hm. simpl. by eexists.
Qed.

(** X3: the failures of [make_variables]: a [KeyError] on a name of the
    [SampleSpec] that is not a field of the sample, or the unbound variable
    [input_vars] in a phase other than ["train"] and ["test"]; in such a phase
    the input names are not looked up at all, so the failure is the unbound
    variable as soon as the label and mask names are fields of the sample. *)
Theorem make_variables_failures (sample : Sample) (sample_spec : SampleSpec) (phase : string) :
  make_variables sample sample_spec phase ≠ Diverge
  ∧ (∀ e, make_variables sample sample_spec phase = Raise e →
       (∃ k, e = KeyError k
             ∧ k ∈ get_inputs sample_spec ++ get_labels sample_spec ++ get_masks sample_spec
             ∧ sample !! k = None)
       ∨ (e = UnboundLocalError "input_vars"
          ∧ phase ≠ "train"%string ∧ phase ≠ "test"%string))
  ∧ (phase ≠ "train"%string → phase ≠ "test"%string →
     (∀ k, k ∈ get_labels sample_spec ++ get_masks sample_spec → is_Some (sample !! k)) →
     make_variables sample sample_spec phase = Raise (UnboundLocalError "input_vars")).
Proof.
  rewrite make_variables_unfold.
  assert (∀ (ivs : outcome (option (list Var))),
            (∀ e, ivs = Raise e → ∃ k, e = KeyError k ∧ k ∈ get_inputs sample_spec
                                       ∧ sample !! k = None) →
            ivs ≠ Diverge →
            (∀ v, ivs = Ok v → v = None → phase ≠ "train"%string ∧ phase ≠ "test"%string) →
            (ivs ≫= fun input_vars =>
               label_vars ← mapM (fun k => py_lookup sample k
                                    ≫= fun t => mret (make_variable t (RequiresGrad false)))
                              (get_labels sample_spec);
               mask_vars ← mapM (fun k => py_lookup sample k
                                    ≫= fun t => mret (make_variable t (RequiresGrad false)))
                              (get_masks sample_spec);
               match input_vars with
               | Some input_vars => Ok (input_vars, label_vars, mask_vars)
               | None => Raise (UnboundLocalError "input_vars")
               end) ≠ Diverge
            ∧ ∀ e, (ivs ≫= fun input_vars =>
               label_vars ← mapM (fun k => py_lookup sample k
                                    ≫= fun t => mret (make_variable t (RequiresGrad false)))
                              (get_labels sample_spec);
               mask_vars ← mapM (fun k => py_lookup sample k
                                    ≫= fun t => mret (make_variable t (RequiresGrad false)))
                              (get_masks sample_spec);
               match input_vars with
               | Some input_vars => Ok (input_vars, label_vars, mask_vars)
               | None => Raise (UnboundLocalError "input_vars")
               end) = Raise e →
               (∃ k, e = KeyError k
                  ∧ k ∈ get_inputs sample_spec ++ get_labels sample_spec ++ get_masks sample_spec
                  ∧ sample !! k = None)
               ∨ (e = UnboundLocalError "input_vars"
                  ∧ phase ≠ "train"%string ∧ phase ≠ "test"%string)) as Hgen.
  { intros ivs Hraise Hdiv Hnone. destruct ivs as [v|e0|]; simpl; [| |done].
    - destruct (mapM_wrap_cases sample (RequiresGrad false) (get_labels sample_spec))
        as [(lvs & -> & _)|(k & -> & Hin & Hk)]; simpl.
      + destruct (mapM_wrap_cases sample (RequiresGrad false) (get_masks sample_spec))
          as [(mvs & -> & _)|(k & -> & Hin & Hk)]; simpl.
        * destruct v; [done|]. split; [done|]. intros e [= <-]. right.
          destruct (Hnone None eq_refl eq_refl). done.
        * split; [done|]. intros e [= <-]. left. exists k. rewrite !elem_of_app. auto.
      + split; [done|]. intros e [= <-]. left. exists k. rewrite !elem_of_app. auto.
    - split; [done|]. intros e [= <-]. destruct (Hraise e0 eq_refl) as (k & -> & Hin & Hk).
      left. exists k. rewrite !elem_of_app. auto. }
  split_and!.
  - apply Hgen.
    + intros e. destruct (input_mode phase) as [mode|]; [|done].
      destruct (mapM_wrap_cases sample mode (get_inputs sample_spec))
        as [(vs & -> & _)|(k & -> & Hin & Hk)]; simpl; [done|]. intros [= <-]. by exists k.
    + destruct (input_mode phase) as [mode|]; [|done].
      by destruct (mapM_wrap_cases sample mode (get_inputs sample_spec))
        as [(vs & -> & _)|(k & -> & Hin & Hk)].
    + intros v Hv ->. unfold input_mode in Hv.
      repeat case_bool_decide; try done; by destruct (mapM _ (get_inputs sample_spec)).
  - apply Hgen.
    + intros e. destruct (input_mode phase) as [mode|]; [|done].
      destruct (mapM_wrap_cases sample mode (get_inputs sample_spec))
        as [(vs & -> & _)|(k & -> & Hin & Hk)]; simpl; [done|]. intros [= <-]. by exists k.
    + destruct (input_mode phase) as [mode|]; [|done].
      by destruct (mapM_wrap_cases sample mode (get_inputs sample_spec))
        as [(vs & -> & _)|(k & -> & Hin & Hk)].
    + intros v Hv ->. unfold input_mode in Hv.
      repeat case_bool_decide; try done; by destruct (mapM _ (get_inputs sample_spec)).
  - intros Htrain Htest Hall. unfold input_mode.
    rewrite !bool_decide_eq_false_2 by done. simpl.
    destruct (mapM_wrap_cases sample (RequiresGrad false) (get_labels sample_spec))
      as [(lvs & -> & _)|(k & _ & Hin & Hk)]; simpl.
    + destruct (mapM_wrap_cases sample (RequiresGrad false) (get_masks sample_spec))
        as [(mvs & -> & _)|(k & _ & Hin & Hk)]; simpl; [done|].
      destruct (Hall k) as [t Ht]; [rewrite elem_of_app; auto|congruence].
    + destruct (Hall k) as [t Ht]; [rewrite elem_of_app; auto|congruence].
Qed.

Lemma make_variables_failures_witness :
  make_variables Fixture.good_sample Fixture.spec "validation"
  = Raise (UnboundLocalError "input_vars").
Proof.
  apply (make_variables_failures Fixture.good_sample Fixture.spec "validation").
  - discriminate.
  - discriminate.
  - intros k Hk. simpl in Hk.
    repeat (apply elem_of_cons in Hk as [->|Hk]; [by eexists|]). by apply elem_of_nil in Hk.
Defined.

Lemma make_variables_labels_length sample sample_spec phase inputs labels masks :
  make_variables sample sample_spec phase = Ok (inputs, labels, masks) →
  length (get_labels sample_spec) = length labels.
Proof.
  rewrite make_variables_unfold.
  destruct (match input_mode phase with Some _ => _ | None => _ end) as [ivs| |];
    simpl; try done.
  destruct (mapM _ (get_labels sample_spec)) as [lvs| |] eqn:Hl; simpl; try done.
  destruct (mapM _ (get_masks sample_spec)) as [mvs| |]; simpl; try done.
  apply mapM_wrap_Ok, Forall2_length in Hl.
  destruct ivs; [|done]. by intros [= _ <- _].
Qed.

(** X4: on the labels and masks that [make_variables] returned for the same
    [SampleSpec], the first assertion of [eval_error] cannot fail: the only
    assertion error is the one on the number of predictions, raised exactly
    when the model returned a number of predictions other than the number of
    label names. *)
Theorem eval_error_after_make_variables (sample : Sample) (sample_spec : SampleSpec)
    (phase : string) (inputs labels masks preds : list Var) (loss_fn : LossFn) :
  make_variables sample sample_spec phase = Ok (inputs, labels, masks) →
  eval_error preds labels masks loss_fn sample_spec
    ≠ Raise (AssertionError "Mismatched labels and label names")
  ∧ (eval_error preds labels masks loss_fn sample_spec
       = Raise (AssertionError "Mismatched preds and labels")
     ↔ length preds ≠ length (get_labels sample_spec)).
Proof.
  intros Hl%make_variables_labels_length.
  unfold eval_error. rewrite Hl, Nat.eqb_refl. simpl.
  destruct (Nat.eqb_spec (length preds) (length labels)) as [Heq|Hne]; simpl.
  - split; [apply eval_error_loop_no_assert|]. split; [|done].
    intros Hrun. by apply eval_error_loop_no_assert in Hrun.
  - split; [done|]. split; [|done]. intros _. congruence.
Qed.

Lemma eval_error_after_make_variables_witness :
  eval_error [] [mkVar (expand_dims Fixture.t_label) (RequiresGrad false)]
    [mkVar (expand_dims Fixture.t_mask) (RequiresGrad false)] Fixture.loss Fixture.spec
  = Raise (AssertionError "Mismatched preds and labels").
Proof.
  assert (make_variables (expand_dims <$> Fixture.good_sample) Fixture.spec "test"
          = Ok ([mkVar (expand_dims Fixture.t_input) Volatile],
                [mkVar (expand_dims Fixture.t_label) (RequiresGrad false)],
                [mkVar (expand_dims Fixture.t_mask) (RequiresGrad false)])) as Hrun
    by (vm_compute; reflexivity).
  apply (eval_error_after_make_variables _ _ _ _ _ _ [] Fixture.loss Hrun). simpl. lia.
Defined.

(** ** More on the loss evaluation *)

Lemma py_getitem_cases {A} (l : list A) (k : Z) :
  (∃ x, py_getitem l k = Ok x) ∨ py_getitem l k = Raise IndexError.
Proof. unfold py_getitem. repeat case_match; eauto. Qed.

Section EvalErrorMore.
Context (loss_fn : LossFn) (sample_spec : SampleSpec).
Context (label_names : list string) (labels : list Var).

Lemma eval_error_loop_outcomes masks preds : ∀ i losses nmsks,
  (∃ r, eval_error_loop loss_fn sample_spec label_names labels masks i preds losses nmsks
        = Ok r)
  ∨ eval_error_loop loss_fn sample_spec label_names labels masks i preds losses nmsks
    = Raise IndexError.
Proof.
  induction preds as [|pred preds IH]; intros i losses nmsks; simpl; [eauto|].
  unfold py_nth. destruct (labels !! i); simpl; [|auto].
  destruct (label_names !! i) as [name|]; simpl; [|auto].
  destruct (has_mask sample_spec name); [|apply IH].
  destruct (py_getitem_cases masks (get_mask_index sample_spec name)) as [[mask ->]| ->];
    simpl; [apply IH|auto].
Qed.

Lemma eval_error_loop_Ok_lookups masks preds : ∀ i losses nmsks r,
  eval_error_loop loss_fn sample_spec label_names labels masks i preds losses nmsks = Ok r →
  ∀ name, name ∈ take (length preds) (drop i label_names) →
    has_mask sample_spec name = true →
    ∃ mask, py_getitem masks (get_mask_index sample_spec name) = Ok mask.
Proof.
  induction preds as [|pred preds IH]; intros i losses nmsks r Hrun name Hin Hmask.
  - by apply elem_of_nil in Hin.
  - apply eval_error_loop_step in Hrun
      as (label & name' & losses1 & nmsks1 & _ & Hn & Hentry & _ & _ & _ & Hrun).
    rewrite (drop_S _ _ _ Hn) in Hin. cbn [length take] in Hin.
    apply elem_of_cons in Hin as [->|Hin]; [|by eapply IH].
    unfold task_entry in Hentry. rewrite Hmask in Hentry.
    destruct Hentry as (mask & Hmask' & _). by exists mask.
Qed.

Lemma eval_error_loop_IndexError masks preds : ∀ i losses nmsks,
  (i + length preds ≤ length labels)%nat →
  (i + length preds ≤ length label_names)%nat →
  eval_error_loop loss_fn sample_spec label_names labels masks i preds losses nmsks
    = Raise IndexError →
  ∃ name, name ∈ label_names ∧ has_mask sample_spec name = true
          ∧ py_getitem masks (get_mask_index sample_spec name) = Raise IndexError.
Proof.
  induction preds as [|pred preds IH]; intros i losses nmsks Hl Hn; simpl in *; [done|].
  destruct (lookup_lt_is_Some_2 labels i) as [label Hlabel]; [lia|].
  destruct (lookup_lt_is_Some_2 label_names i) as [name Hname]; [lia|].
  unfold py_nth. rewrite Hlabel, Hname. simpl.
  destruct (has_mask sample_spec name) eqn:Hmask; [|apply IH; lia].
  destruct (py_getitem_cases masks (get_mask_index sample_spec name)) as [[mask Hg]|Hg];
    rewrite Hg; simpl.
  - apply IH; lia.
  - intros _. exists name. split_and!; [by eapply list_elem_of_lookup_2|done|done].
Qed.

Lemma eval_error_loop_masks_agree masks masks' preds : ∀ i losses nmsks,
  (∀ name, name ∈ label_names → has_mask sample_spec name = true →
     py_getitem masks (get_mask_index sample_spec name)
     = py_getitem masks' (get_mask_index sample_spec name)) →
  eval_error_loop loss_fn sample_spec label_names labels masks i preds losses nmsks
  = eval_error_loop loss_fn sample_spec label_names labels masks' i preds losses nmsks.
Proof.
  induction preds as [|pred preds IH]; intros i losses nmsks Hagree; simpl; [done|].
  unfold py_nth. destruct (labels !! i); simpl; [|done].
  destruct (label_names !! i) as [name|] eqn:Hname; simpl; [|done].
  destruct (has_mask sample_spec name) eqn:Hmask; [|by apply IH].
  rewrite <- (Hagree name) by (by eauto using list_elem_of_lookup_2).
  destruct (py_getitem masks (get_mask_index sample_spec name)); simpl; [|done..].
  by apply IH.
Qed.
End EvalErrorMore.

(** X5: once the cardinalities agree, the only failure of [eval_error] is an
    [IndexError], and it occurs exactly when some label with a mask has a
    mask position outside the list of masks. *)
Theorem eval_error_index_error (preds labels masks : list Var) (loss_fn : LossFn)
    (sample_spec : SampleSpec) :
  length preds = length labels →
  length labels = length (get_labels sample_spec) →
  ((∃ r, eval_error preds labels masks loss_fn sample_spec = Ok r)
   ∨ eval_error preds labels masks loss_fn sample_spec = Raise IndexError)
  ∧ (eval_error preds labels masks loss_fn sample_spec = Raise IndexError
     ↔ ∃ name, name ∈ get_labels sample_spec ∧ has_mask sample_spec name = true
               ∧ py_getitem masks (get_mask_index sample_spec name) = Raise IndexError).
Proof.
  intros Hpl Hln. unfold eval_error. rewrite Hpl, <- Hln, !Nat.eqb_refl. simpl.
  split; [apply eval_error_loop_outcomes|]. split.
  - apply eval_error_loop_IndexError; simpl; lia.
  - intros (name & Hin & Hmask & Hg).
    destruct (eval_error_loop_outcomes loss_fn sample_spec (get_labels sample_spec) labels
                masks preds 0 ∅ ∅) as [[r Hr]|Hr]; [|done].
    destruct (eval_error_loop_Ok_lookups _ _ _ _ _ _ _ _ _ _ Hr name) as [mask Hmask'];
      [|done|congruence].
    by rewrite drop_0, Hpl, Hln, firstn_all.
Qed.

Lemma eval_error_index_error_witness :
  eval_error [Fixture.v_pred] [Fixture.v_label] [] Fixture.loss Fixture.spec = Raise IndexError.
Proof.
  apply (eval_error_index_error [Fixture.v_pred] [Fixture.v_label] [] Fixture.loss
           Fixture.spec eq_refl eq_refl).
  exists "label"%string. split_and!; [by left|reflexivity|reflexivity].
Defined.

(** X6: [eval_error] reads the list of masks only at the mask positions of
    the labels that have a mask: two lists of masks that agree there give the
    same result.  In particular the masks are not read at all when no label
    has a mask. *)
Theorem eval_error_masks_agree (preds labels masks masks' : list Var) (loss_fn : LossFn)
    (sample_spec : SampleSpec) :
  (∀ name, name ∈ get_labels sample_spec → has_mask sample_spec name = true →
     py_getitem masks (get_mask_index sample_spec name)
     = py_getitem masks' (get_mask_index sample_spec name)) →
  eval_error preds labels masks loss_fn sample_spec
  = eval_error preds labels masks' loss_fn sample_spec.
Proof.
  intros Hagree. unfold eval_error. repeat case_match; try done.
  by apply eval_error_loop_masks_agree.
Qed.

Lemma eval_error_masks_agree_witness :
  eval_error [Fixture.v_pred] [Fixture.v_label] [Fixture.v_mask] Fixture.loss Fixture.spec
  = eval_error [Fixture.v_pred] [Fixture.v_label] [Fixture.v_mask; Fixture.v_label]
      Fixture.loss Fixture.spec.
Proof.
  apply (eval_error_masks_agree [Fixture.v_pred] [Fixture.v_label] [Fixture.v_mask]
           [Fixture.v_mask; Fixture.v_label] Fixture.loss Fixture.spec).
  intros name _ _. reflexivity.
Defined.

(** X7: [log_errors] fails on dictionaries with different keys without
    calling the monitor; on the two dictionaries that [eval_error] returned it
    never fails, and adds the losses to the numerators and then the counts to
    the denominators of the phase. *)
Theorem log_errors_after_eval_error (losses nmsks : Dict) (phase : string) (w : World) :
  (dom losses ≠ dom nmsks →
   log_errors losses nmsks phase w
   = (Raise (AssertionError "Mismatched losses and nmsks"), w, []))
  ∧ (∀ preds labels masks loss_fn sample_spec,
       eval_error preds labels masks loss_fn sample_spec = Ok (losses, nmsks) →
       log_errors losses nmsks phase w
       = (Ok tt,
          with_monitor (add_to_denom nmsks phase) (with_monitor (add_to_num losses phase) w),
          [EvAddToNum losses phase; EvAddToDenom nmsks phase])).
Proof.
  unfold log_errors. split.
  - intros Hne. by rewrite bool_decide_eq_false_2.
  - intros preds labels masks loss_fn sample_spec Hrun. unfold eval_error in Hrun.
    destruct (negb (length (get_labels sample_spec) =? length labels)%nat); [done|].
    destruct (negb (length preds =? length labels)%nat); [done|].
    apply eval_error_loop_spec in Hrun as (_ & Hdl & Hdn & _).
    rewrite bool_decide_eq_true_2 by congruence. reflexivity.
Qed.

Lemma log_errors_after_eval_error_witness :
  log_errors {["a"%string := 1%Q]} ∅ "train" Fixture.world
  = (Raise (AssertionError "Mismatched losses and nmsks"), Fixture.world, []).
Proof.
  apply (log_errors_after_eval_error {["a"%string := 1%Q]} ∅ "train" Fixture.world).
  intros H. apply (f_equal (fun d : gset string => bool_decide ("a"%string ∈ d))) in H.
  vm_compute in H. discriminate H.
Defined.

(** ** More on fetching a sample *)

(** X8: whatever its outcome, [fetch_nonempty_sample] only requests samples
    from its sampler, at least one; it leaves the clock, the optimizer steps,
    the monitor and every other sampler as they were, and its own sampler
    advanced by the number of requests.  The sample it returns is the last one
    requested, with the same fields, each with a new leading dimension of
    size one and the same elements. *)
Theorem fetch_nonempty_sample_frame (fuel sampler : nat) (masks : list string)
    (w w' : World) (r : outcome Sample) (evs : list Event) :
  fetch_nonempty_sample fuel sampler masks w = (r, w', evs) →
  ∃ n, (n ≤ fuel)%nat ∧ evs = replicate (S n) (EvGet sampler)
       ∧ ticks w' = ticks w ∧ nsteps w' = nsteps w ∧ monitor w' = monitor w
       ∧ (∀ s k, samplers w' s k
                 = if decide (s = sampler) then samplers w s (S n + k)%nat
                   else samplers w s k)
       ∧ (∀ sample, r = Ok sample →
            dom sample = dom (samplers w sampler n)
            ∧ ∀ name t, samplers w sampler n !! name = Some t →
                        sample !! name = Some (mkTensor (1%nat :: tsize t) (tdata t))).
Proof.
  intros (n & Hn & Hevs & Ht & Hs & Hm & Hsam & Hres)%fetch_nonempty_sample_requests.
  exists n. split_and!; try done.
  intros sample ->%Hres. split.
  - apply dom_fmap_L.
  - intros name t Hname. by rewrite lookup_fmap, Hname.
Qed.

Lemma fetch_nonempty_sample_frame_witness :
  ∃ n, (n ≤ 3)%nat
       ∧ (fetch_nonempty_sample 3 0 ["label_mask"%string] Fixture.world).2
         = replicate (S n) (EvGet 0%nat).
Proof.
  destruct (fetch_nonempty_sample 3 0 ["label_mask"%string] Fixture.world)
    as [[r w'] evs] eqn:Hrun.
  destruct (fetch_nonempty_sample_frame _ _ _ _ _ _ _ Hrun) as (n & Hn & Hevs & _).
  exists n. split; [exact Hn|exact Hevs].
Defined.

(** X9: there is no bound on the requests: as long as the loop guard holds
    for the samples the sampler yields, [fetch_nonempty_sample] goes on
    requesting and returns nothing. *)
Theorem fetch_nonempty_sample_unbounded (fuel sampler : nat) (masks : list string) (w : World) :
  (∀ k, (k ≤ fuel)%nat → masks_not_empty (samplers w sampler k) masks = Ok true) →
  ∃ w', fetch_nonempty_sample fuel sampler masks w
        = (Diverge, w', replicate (S fuel) (EvGet sampler)).
Proof.
  intros Hbad. unfold fetch_nonempty_sample. rewrite run_bind. cbn. rewrite run_bind.
  assert (∀ fuel sample w,
            (∀ k, (k ≤ fuel)%nat →
                  masks_not_empty (nth_sample sampler sample w k) masks = Ok true) →
            ∃ w', fetch_loop fuel sampler masks sample w
                  = (Diverge, w', replicate fuel (EvGet sampler))) as Hloop.
  { clear. induction fuel as [|fuel IH]; intros sample w Hbad; rewrite fetch_loop_eq;
      pose proof (Hbad 0%nat ltac:(lia)) as H0; simpl in H0; rewrite H0, lift_bind_run.
    - by eexists.
    - rewrite run_bind. cbn.
      destruct (IH (samplers w sampler 0%nat) (advance sampler w)) as [w' ->].
      + intros k Hk. specialize (Hbad (S k) ltac:(lia)).
        destruct k; [done|]. cbn [nth_sample]. by rewrite samplers_advance.
      + by eexists. }
  destruct (Hloop fuel (samplers w sampler 0%nat) (advance sampler w)) as [w' ->].
  - intros k Hk. specialize (Hbad k Hk).
    destruct k; [done|]. cbn [nth_sample]. by rewrite samplers_advance.
  - cbn. by eexists.
Qed.

Lemma fetch_nonempty_sample_unbounded_witness :
  ∃ w', fetch_nonempty_sample 5 0 ["label_mask"%string]
          (mkWorld (fun _ _ => Fixture.empty_sample) 0 0 ∅)
        = (Diverge, w', replicate 6 (EvGet 0%nat)).
Proof.
  apply (fetch_nonempty_sample_unbounded 5 0 ["label_mask"%string]
           (mkWorld (fun _ _ => Fixture.empty_sample) 0 0 ∅)).
  intros k _. reflexivity.
Defined.

(** ** The checkpoint files *)

Lemma string_app_cons (c : ascii) (s t : string) : String c s +:+ t = String c (s +:+ t).
Proof. reflexivity. Qed.

Lemma string_app_nil (t : string) : "" +:+ t = t.
Proof. reflexivity. Qed.

Lemma string_length_app (s t : string) :
  String.length (s +:+ t) = (String.length s + String.length t)%nat.
Proof.
  induction s as [|c s IH]; [done|].
  rewrite string_app_cons. simpl. by rewrite IH.
Qed.

Lemma string_app_assoc (s t u : string) : (s +:+ t) +:+ u = s +:+ (t +:+ u).
Proof.
  induction s as [|c s IH]; [done|]. rewrite !string_app_cons. by rewrite IH.
Qed.

Lemma string_app_inj_r (s1 s2 t : string) : s1 +:+ t = s2 +:+ t → s1 = s2.
Proof.
  revert s2. induction s1 as [|c s1 IH]; intros [|c' s2] Heq.
  - done.
  - apply (f_equal String.length) in Heq. rewrite !string_length_app in Heq.
    simpl in Heq. lia.
  - apply (f_equal String.length) in Heq. rewrite !string_length_app in Heq.
    simpl in Heq. lia.
  - rewrite !string_app_cons in Heq. injection Heq as -> Heq. f_equal. by apply IH.
Qed.

Lemma string_app_not_nil (s t : string) : t ≠ "" → s +:+ t ≠ "".
Proof. intros Ht. destruct s; [done|]. by rewrite string_app_cons. Qed.

Lemma last_char_app (s t : string) : t ≠ "" → last_char (s +:+ t) = last_char t.
Proof.
  intros Ht. induction s as [|c s IH]; [done|].
  rewrite string_app_cons. pose proof (string_app_not_nil s t Ht) as Hne.
  cbn [last_char]. destruct (s +:+ t); done.
Qed.

Lemma path_join_prefix (a b : string) : ∃ p, path_join a b = p +:+ b.
Proof.
  unfold path_join. repeat case_match.
  - by exists "".
  - by exists a.
  - exists (a +:+ "/"). by rewrite string_app_assoc.
Qed.

Lemma path_join_inj (a b1 b2 : string) : path_join a b1 = path_join a b2 → b1 = b2.
Proof.
  unfold path_join. repeat case_match; try done.
  - apply String.app_inj.
  - intros Heq%String.app_inj. by injection Heq.
Qed.

(** X10: the two files of a checkpoint differ, and checkpoints of different
    iterations under the same directory have no file in common: no later
    checkpoint overwrites the model or the statistics of an earlier one. *)
Theorem save_checkpoint_files (dir : string) (i j : Z) (w w' : World) :
  NoDup (saved_files (save_checkpoint i (PStr dir) w).2)
  ∧ (∀ fname, fname ∈ saved_files (save_checkpoint i (PStr dir) w).2 →
              fname ∈ saved_files (save_checkpoint j (PStr dir) w').2 → i = j).
Proof.
  assert (∀ i, saved_files (save_checkpoint i (PStr dir) w).2
               = [path_join (path_join dir "models") ("model" +:+ pretty i +:+ ".ckpt");
                  path_join (path_join dir "logs") ("stats_" +:+ pretty i +:+ ".h5")])
    as Hfiles by done.
  assert (∀ i j : Z, path_join (path_join dir "models") ("model" +:+ pretty i +:+ ".ckpt")
                 ≠ path_join (path_join dir "logs") ("stats_" +:+ pretty j +:+ ".h5"))
    as Hkinds.
  { intros i' j' Heq. apply (f_equal last_char) in Heq.
    destruct (path_join_prefix (path_join dir "models") ("model" +:+ pretty i' +:+ ".ckpt"))
      as [p Hp].
    destruct (path_join_prefix (path_join dir "logs") ("stats_" +:+ pretty j' +:+ ".h5"))
      as [q Hq].
    rewrite Hp, Hq, <- !string_app_assoc in Heq.
    rewrite !last_char_app in Heq by done. done. }
  assert (Inj eq eq (fun i : Z => path_join (path_join dir "models")
                                 ("model" +:+ pretty i +:+ ".ckpt"))) as Hmodel.
  { intros i1 i2 Heq%path_join_inj%String.app_inj%string_app_inj_r. by apply (inj pretty). }
  assert (Inj eq eq (fun i : Z => path_join (path_join dir "logs")
                                 ("stats_" +:+ pretty i +:+ ".h5"))) as Hstats.
  { intros i1 i2 Heq%path_join_inj%String.app_inj%string_app_inj_r. by apply (inj pretty). }
  split.
  - rewrite Hfiles. apply NoDup_cons. split; [|apply NoDup_singleton].
    intros Heq%list_elem_of_singleton. by eapply Hkinds.
  - intros fname. rewrite Hfiles.
    assert (saved_files (save_checkpoint j (PStr dir) w').2
            = [path_join (path_join dir "models") ("model" +:+ pretty j +:+ ".ckpt");
               path_join (path_join dir "logs") ("stats_" +:+ pretty j +:+ ".h5")])
      as -> by done.
    rewrite !elem_of_cons, !elem_of_nil.
    intros [->|[->|[]]] [Heq|[Heq|[]]].
    + by apply Hmodel in Heq.
    + by apply Hkinds in Heq.
    + symmetry in Heq. by apply Hkinds in Heq.
    + by apply Hstats in Heq.
Qed.

Lemma save_checkpoint_files_witness :
  NoDup (saved_files (save_checkpoint 5 (PStr "expt") Fixture.world).2)
  ∧ 5 = 5.
Proof.
  destruct (save_checkpoint_files "expt" 5 5 Fixture.world Fixture.world) as [Hnodup Hsame].
  split; [exact Hnodup|].
  apply (Hsame "expt/models/model5.ckpt"%string); vm_compute; by left.
Defined.

(** ** The cadence of a whole run *)

Lemma yields_mark_run_validation_loop env fuel sampler sample_spec mask_names count :
  ∀ start losses,
    yields mark []
      (run_validation_loop env fuel sampler sample_spec mask_names count start losses).
Proof.
  induction count as [|count IH]; intros start losses; simpl; [apply yields_ret|].
  eapply yields_eq.
  - apply yields_bind; [by apply yields_fetch_nonempty_sample|]. intros sample.
    apply yields_bind; [apply yields_lift|]. intros [[inputs labels] masks].
    apply yields_bind; [yield yields_forward|]. intros preds.
    apply yields_bind; [apply yields_lift|]. intros [losses' nmsks].
    apply yields_bind; [yield yields_log_errors|]. intros _.
    apply yields_bind; [yield yields_time_time|]. intros now.
    apply yields_bind; [yield yields_log_elapsed_time|]. intros _.
    apply yields_bind; [yield yields_time_time|]. intros start'.
    apply IH.
  - reflexivity.
Qed.

Lemma yields_mark_run_validation env fuel sampler num_iters sample_spec iter_num :
  yields mark [MFlush iter_num "test"; MPrintTest iter_num]
    (run_validation env fuel sampler num_iters sample_spec iter_num).
Proof.
  unfold run_validation. eapply yields_eq.
  - apply yields_bind; [yield yields_time_time|]. intros start.
    apply yields_bind; [apply yields_lift|]. intros n.
    apply yields_bind; [apply yields_mark_run_validation_loop|]. intros losses.
    apply yields_bind; [yield yields_update_monitor|]. intros _.
    destruct losses as [losses|]; [|by intros w a w' evs].
    apply yields_bind; [apply yields_avg_losses_of|]. intros avg_losses.
    apply yields_bind; [apply yields_avg_time_of|]. intros avg_time.
    yield yields_emit.
  - reflexivity.
Qed.

Section FullCadence.
Context (val_sampler : option nat) (last_iter test_intv avgs_intv chkpt_intv : Z).
Context (dir : string) (params : gmap string pyval).
Context (Htest : val_sampler ≠ None → params !! "test_intv"%string = Some (PInt test_intv)).
Context (Havgs : params !! "avgs_intv"%string = Some (PInt avgs_intv)).
Context (Hchkpt : params !! "chkpt_intv"%string = Some (PInt chkpt_intv)).
Context (Hdir : params !! "expt_dir"%string = Some (PStr dir)).

Lemma yields_validation_cadence env fuel sample_spec i start :
  yields mark (validation_marks val_sampler test_intv i)
    (validation_cadence env fuel val_sampler params sample_spec i start).
Proof.
  unfold validation_cadence, validation_marks. destruct val_sampler as [vs|];
    [|apply yields_ret].
  apply yields_lift_bind. intros t ->%(param_int_Ok _ _ _ _ (Htest ltac:(done))).
  apply yields_lift_bind. intros r ->%py_mod_Ok.
  destruct (i `mod` test_intv =? 0); [|apply yields_ret].
  eapply yields_eq.
  - apply yields_bind; [apply yields_lift|]. intros test_iter.
    apply yields_bind; [apply yields_mark_run_validation|]. intros _.
    yield yields_time_time.
  - reflexivity.
Qed.

Lemma yields_train_iteration_full env fuel sampler sample_spec mask_names i start :
  yields mark (run_marks val_sampler last_iter test_intv avgs_intv chkpt_intv dir i)
    (train_iteration env fuel sampler val_sampler last_iter params sample_spec
       mask_names i start).
Proof.
  unfold train_iteration, run_marks. eapply yields_eq.
  - apply yields_bind; [apply yields_train_step|]. intros [losses start'].
    apply yields_bind; [apply yields_validation_cadence|]. intros start''.
    apply yields_bind; [by apply yields_averages_cadence|]. intros _.
    apply yields_bind; [by apply yields_checkpoint_cadence|]. intros _.
    apply yields_ret.
  - simpl. by rewrite app_nil_r.
Qed.

Lemma yields_train_loop_full env fuel sampler sample_spec mask_names iters : ∀ start,
  yields mark
    (flat_map (run_marks val_sampler last_iter test_intv avgs_intv chkpt_intv dir) iters)
    (train_loop env fuel sampler val_sampler last_iter params sample_spec mask_names
       iters start).
Proof.
  induction iters as [|i iters IH]; intros start; cbn [train_loop flat_map];
    [apply yields_ret|].
  apply yields_bind; [apply yields_train_iteration_full|]. intros start'. apply IH.
Qed.
End FullCadence.

(** X11: the cadence of any completed run.  Iterations [last_iter] to
    [max_iter - 1] are run in order; each takes one optimizer step, then
    validates if there is a validation sampler and [i % test_intv == 0], then
    flushes and reports the averages if [i % avgs_intv == 0] and [i] is not
    [last_iter], then saves a checkpoint if [i % chkpt_intv == 0] and [i] is not
    [last_iter]; nothing else steps, flushes, reports or saves. *)
Theorem train_cadence (env : Env) (fuel sampler : nat) (val_sampler : option nat)
    (last_iter max_iter test_intv avgs_intv chkpt_intv : Z) (dir : string)
    (params : gmap string pyval) (w w' : World) (evs : list Event) :
  params !! "max_iter"%string = Some (PInt max_iter) →
  (val_sampler ≠ None → params !! "test_intv"%string = Some (PInt test_intv)) →
  params !! "avgs_intv"%string = Some (PInt avgs_intv) →
  params !! "chkpt_intv"%string = Some (PInt chkpt_intv) →
  params !! "expt_dir"%string = Some (PStr dir) →
  train env fuel sampler val_sampler last_iter params w = (Ok tt, w', evs) →
  flat_map mark evs
  = flat_map (run_marks val_sampler last_iter test_intv avgs_intv chkpt_intv dir)
      (seqZ last_iter (max_iter - last_iter)).
Proof.
  intros Hmax Htest Havgs Hchkpt Hdir.
  enough (yields mark
            (flat_map (run_marks val_sampler last_iter test_intv avgs_intv chkpt_intv dir)
               (seqZ last_iter (max_iter - last_iter)))
            (train env fuel sampler val_sampler last_iter params)) as Hyields
    by apply Hyields.
  unfold train. destruct (params_defined params); [|by intros w0 a w0' evs0].
  eapply yields_eq.
  - apply yields_bind; [yield yields_update_monitor|]. intros _.
    apply yields_bind; [by apply (yields_fixed _ _ [EvGet sampler])|]. intros sample.
    apply yields_bind; [apply yields_lift|]. intros sample_spec.
    apply yields_bind; [yield yields_time_time|]. intros start.
    apply yields_bind; [yield yields_emit|]. intros _.
    apply yields_lift_bind. intros m ->%(param_int_Ok _ _ _ _ Hmax).
    by apply yields_train_loop_full.
  - reflexivity.
Qed.

Lemma train_cadence_witness :
  ∃ w' evs,
    train Fixture.env 3 0 (Some 1%nat) 0 (Fixture.params 3 2 1 2 2) Fixture.world
      = (Ok tt, w', evs)
    ∧ flat_map mark evs
      = [MStep; MFlush 0 "test"; MPrintTest 0;
         MStep;
         MStep; MFlush 2 "test"; MPrintTest 2; MFlush 2 "train"; MPrintAvgs 2;
         MPrintSave 2; MSaveModel "expt/models/model2.ckpt";
         MSaveStats "expt/logs/stats_2.h5" 2].
Proof.
  assert ((train Fixture.env 3 0 (Some 1%nat) 0 (Fixture.params 3 2 1 2 2) Fixture.world).1.1
          = Ok tt) as Hr by (vm_compute; reflexivity).
  destruct (train Fixture.env 3 0 (Some 1%nat) 0 (Fixture.params 3 2 1 2 2) Fixture.world)
    as [[r w'] evs] eqn:Hrun.
  simpl in Hr. subst r. exists w', evs. split; [reflexivity|].
  exact (train_cadence Fixture.env 3 0 (Some 1%nat) 0 3 2 2 2 "expt"
           (Fixture.params 3 2 1 2 2) Fixture.world w' evs
           eq_refl (fun _ => eq_refl) eq_refl eq_refl eq_refl Hrun).
Defined.

(** X12: a run whose [max_iter] does not exceed [last_iter] has nothing to
    do: it still creates the monitor, requests one sample for the
    [SampleSpec], reads the clock and prints the banner, and then completes
    without a training step, a validation, a flush or a checkpoint. *)
Theorem train_nothing_to_do (env : Env) (fuel sampler : nat) (val_sampler : option nat)
    (last_iter max_iter : Z) (params : gmap string pyval) (sample_spec : SampleSpec)
    (w : World) :
  params_defined params = true →
  params !! "max_iter"%string = Some (PInt max_iter) →
  max_iter ≤ last_iter →
  SampleSpec_new env (dom (samplers w sampler 0%nat)) = Ok sample_spec →
  train env fuel sampler val_sampler last_iter params w
  = (Ok tt, tick (advance sampler (with_monitor (fun _ => ∅) w)),
     [EvNewMonitor; EvGet sampler; EvTime; EvPrint MsgBegin]).
Proof.
  intros Hdef Hmax Hle Hspec. unfold train. rewrite Hdef, run_bind. cbn.
  rewrite run_bind. cbn. rewrite Hspec, lift_bind_run, run_bind. cbn.
  rewrite run_bind. cbn. unfold param_int, py_lookup. rewrite Hmax. cbn.
  rewrite lift_bind_run, seqZ_nil by lia. reflexivity.
Qed.

Lemma train_nothing_to_do_witness :
  train Fixture.env 3 0 None 10 (Fixture.params 10 100 2 5 5) Fixture.world
  = (Ok tt, tick (advance 0 (with_monitor (fun _ => ∅) Fixture.world)),
     [EvNewMonitor; EvGet 0%nat; EvTime; EvPrint MsgBegin]).
Proof.
  apply (train_nothing_to_do Fixture.env 3 0 None 10 10 (Fixture.params 10 100 2 5 5)
           Fixture.spec Fixture.world); [reflexivity|reflexivity|lia|reflexivity].
Defined.

Lemma param_int_inv params key z :
  param_int params key = Ok z → params !! key = Some (PInt z).
Proof.
  unfold param_int, py_lookup. destruct (params !! key) as [[z'|s]|]; simpl; congruence.
Qed.

Lemma py_mod_nonzero i n r : py_mod i n = Ok r → n ≠ 0.
Proof. unfold py_mod. destruct (Z.eqb_spec n 0); congruence. Qed.

Lemma interval_nonzero {A} (params : gmap string pyval) (key : string) (i : Z)
    (k : Z → M A) (w w' : World) (a : A) (evs : list Event) :
  (lift (param_int params key) ≫= λ n, lift (py_mod i n) ≫= k) w = (Ok a, w', evs) →
  ∃ n, params !! key = Some (PInt n) ∧ n ≠ 0.
Proof.
  intros (n & w1 & e1 & e2 & (Hn & _ & _)%lift_ok_inv & Hrest & _)%bind_ok_inv.
  apply bind_ok_inv in Hrest as (r & w2 & e3 & e4 & (Hr & _ & _)%lift_ok_inv & _ & _).
  exists n. split; [by apply param_int_inv|by eapply py_mod_nonzero].
Qed.

(** X13: an iteration never completes when an interval it consults is the
    integer zero: [avgs_intv] or [chkpt_intv], or [test_intv] when there is a
    validation sampler.  With [test_intv = 0] and a validation sampler, or
    with [avgs_intv = 0] and none, the iteration fails with a division by
    zero right after the training step, even when [i] is [last_iter]. *)
Theorem train_iteration_intervals (env : Env) (fuel sampler : nat)
    (val_sampler : option nat) (last_iter : Z) (params : gmap string pyval)
    (sample_spec : SampleSpec) (mask_names : list string) (i : Z) (start : Q) (w : World) :
  (∀ start' w' evs,
     train_iteration env fuel sampler val_sampler last_iter params sample_spec mask_names
       i start w = (Ok start', w', evs) →
     params !! "avgs_intv"%string ≠ Some (PInt 0)
     ∧ params !! "chkpt_intv"%string ≠ Some (PInt 0)
     ∧ (val_sampler ≠ None → params !! "test_intv"%string ≠ Some (PInt 0)))
  ∧ (∀ losses start1 w1 e1,
       train_step env fuel sampler sample_spec mask_names start w
         = (Ok (losses, start1), w1, e1) →
       (params !! "avgs_intv"%string = Some (PInt 0) →
        train_iteration env fuel sampler None last_iter params sample_spec mask_names
          i start w = (Raise ZeroDivisionError, w1, e1))
       ∧ (∀ vs, params !! "test_intv"%string = Some (PInt 0) →
            train_iteration env fuel sampler (Some vs) last_iter params sample_spec
              mask_names i start w = (Raise ZeroDivisionError, w1, e1))).
Proof.
  split.
  - intros start' w' evs Hrun. unfold train_iteration in Hrun.
    apply bind_ok_inv in Hrun as ([losses start1] & w1 & e1 & e2 & _ & Hrun & _).
    apply bind_ok_inv in Hrun as (start2 & w2 & e3 & e4 & Hval & Hrun & _).
    apply bind_ok_inv in Hrun as ([] & w3 & e5 & e6 & Havgs & Hrun & _).
    apply bind_ok_inv in Hrun as ([] & w4 & e7 & e8 & Hchkpt & _ & _).
    split_and!.
    + apply interval_nonzero in Havgs as (n & Hn & Hne). congruence.
    + apply interval_nonzero in Hchkpt as (n & Hn & Hne). congruence.
    + intros Hsome. unfold validation_cadence in Hval.
      destruct val_sampler as [vs|]; [|done].
      apply interval_nonzero in Hval as (n & Hn & Hne). congruence.
  - intros losses start1 w1 e1 Hstep. split.
    + intros Havgs. unfold train_iteration.
      rewrite run_bind, Hstep. cbn. rewrite run_bind. cbn.
      unfold averages_cadence, param_int, py_lookup. rewrite Havgs. cbn.
      rewrite run_bind. cbn. rewrite run_bind. cbn. by rewrite app_nil_r.
    + intros vs Htest. unfold train_iteration.
      rewrite run_bind, Hstep. cbn. rewrite run_bind. cbn.
      unfold param_int, py_lookup. rewrite Htest. cbn.
      rewrite run_bind. cbn. rewrite run_bind. cbn. by rewrite app_nil_r.
Qed.

Lemma train_iteration_intervals_witness :
  ∃ w1 e1,
    train_iteration Fixture.env 3 0 None 0 (Fixture.params 10 100 2 0 5) Fixture.spec
      ["label_mask"%string] 0 0%Q Fixture.world
    = (Raise ZeroDivisionError, w1, e1).
Proof.
  assert (∃ v, (train_step Fixture.env 3 0 Fixture.spec ["label_mask"%string] 0%Q
                  Fixture.world).1.1 = Ok v) as [[losses start1] Hr]
    by (vm_compute; by eexists).
  destruct (train_step Fixture.env 3 0 Fixture.spec ["label_mask"%string] 0%Q Fixture.world)
    as [[r1 w1] e1] eqn:Hstep.
  simpl in Hr. subst r1. exists w1, e1.
  exact (proj1 (proj2 (train_iteration_intervals Fixture.env 3 0 None 0
                         (Fixture.params 10 100 2 0 5) Fixture.spec ["label_mask"%string]
                         0 0%Q Fixture.world) losses start1 w1 e1 Hstep) eq_refl).
Defined.

Lemma update_model_ok_inv (losses : Dict) (w w' : World) (evs : list Event) :
  update_model losses w = (Ok tt, w', evs) →
  losses ≠ ∅ ∧ w' = step w
  ∧ evs = [EvZeroGrad; EvBackward (py_sum (map_to_list losses).*2); EvStep].
Proof.
  unfold update_model. rewrite run_bind. cbn.
  destruct (map_to_list losses) as [|kv l] eqn:Hl; cbn; [done|].
  intros [= <- <-]. split_and!; try done.
  intros ->. by rewrite map_to_list_empty in Hl.
Qed.

(** X14: the whole of one completed training step.  Samples are requested
    until one is kept; its variables are made for the ["train"] phase; the
    model is run once, with the parameters it had before the step; the
    losses of that pass are backpropagated and one optimizer step is taken
    before anything is logged; the losses and mask counts are logged under
    ["train"]; the time logged is the clock reading after the step minus the
    start time passed in, counted once; and the start time returned is a
    second, later clock reading. *)
Theorem train_step_trace (env : Env) (fuel sampler : nat) (sample_spec : SampleSpec)
    (mask_names : list string) (start start' : Q) (losses : Dict)
    (w w' : World) (evs : list Event) :
  train_step env fuel sampler sample_spec mask_names start w = (Ok (losses, start'), w', evs) →
  ∃ n w1 sample inputs labels masks nmsks,
    fetch_nonempty_sample fuel sampler mask_names w
      = (Ok sample, w1, replicate (S n) (EvGet sampler))
    ∧ make_variables sample sample_spec "train" = Ok (inputs, labels, masks)
    ∧ eval_error (model env (nsteps w) inputs) labels masks (loss_fn env) sample_spec
      = Ok (losses, nmsks)
    ∧ losses ≠ ∅
    ∧ evs = replicate (S n) (EvGet sampler)
            ++ [EvForward inputs;
                EvZeroGrad; EvBackward (py_sum (map_to_list losses).*2); EvStep;
                EvAddToNum losses "train"; EvAddToDenom nmsks "train";
                EvTime;
                EvAddToNum {["iter_time"%string := (clock env (ticks w) - start)%Q]} "train";
                EvAddToDenom {["iter_time"%string := 1%Q]} "train";
                EvTime]
    ∧ start' = clock env (S (ticks w))
    ∧ ticks w' = S (S (ticks w))
    ∧ nsteps w' = S (nsteps w)
    ∧ samplers w' = samplers w1
    ∧ monitor w'
      = add_to_denom {["iter_time"%string := 1%Q]} "train"
          (add_to_num {["iter_time"%string := (clock env (ticks w) - start)%Q]} "train"
             (add_to_denom nmsks "train" (add_to_num losses "train" (monitor w)))).
Proof.
  unfold train_step.
  intros (sample & w1 & e1 & e2 & Hfetch & Hrun & ->)%bind_ok_inv.
  apply bind_ok_inv in Hrun
    as ([[inputs labels] masks] & w2 & e3 & e4 & (Hvars & -> & ->)%lift_ok_inv & Hrun & ->).
  apply bind_ok_inv in Hrun as (preds & w3 & e5 & e6 & Hfwd & Hrun & ->).
  unfold forward in Hfwd. injection Hfwd as <- <- <-.
  apply bind_ok_inv in Hrun
    as ([losses' nmsks] & w4 & e7 & e8 & (Heval & -> & ->)%lift_ok_inv & Hrun & ->).
  apply bind_ok_inv in Hrun
    as ([] & w5 & e9 & e10 & (Hne & -> & ->)%update_model_ok_inv & Hrun & ->).
  apply bind_ok_inv in Hrun
    as ([] & w6 & e11 & e12 & (-> & ->)%log_errors_ok_inv & Hrun & ->).
  cbn in Hrun. injection Hrun as <- <- <- <-.
  destruct (fetch_nonempty_sample_requests _ _ _ _ _ _ _ Hfetch)
    as (n & _ & -> & Ht & Hs & Hm & _ & _).
  exists n, w1, sample, inputs, labels, masks, nmsks.
  rewrite Hs in Heval. cbn. rewrite Ht, Hs, Hm. by split_and!.
Qed.

Lemma train_step_trace_witness :
  ∃ losses start' w' evs,
    train_step Fixture.env 3 0 Fixture.spec ["label_mask"%string] 0%Q Fixture.world
      = (Ok (losses, start'), w', evs)
    ∧ start' = clock Fixture.env (S (ticks Fixture.world))
    ∧ nsteps w' = S (nsteps Fixture.world).
Proof.
  assert (∃ v, (train_step Fixture.env 3 0 Fixture.spec ["label_mask"%string] 0%Q
                  Fixture.world).1.1 = Ok v) as [[losses start'] Hr]
    by (vm_compute; by eexists).
  destruct (train_step Fixture.env 3 0 Fixture.spec ["label_mask"%string] 0%Q Fixture.world)
    as [[r w'] evs] eqn:Hstep.
  simpl in Hr. subst r. exists losses, start', w', evs.
  destruct (train_step_trace _ _ _ _ _ _ _ _ _ _ _ Hstep)
    as (n & w1 & sample & inputs & labels & masks & nmsks & _ & _ & _ & _ & _ & H1 & _ & H2 & _).
  split; [reflexivity|]. split; [exact H1|exact H2].
Defined.

#[global] Instance same_clock_preorder : PreOrder same_clock.
Proof. split; [done|]. intros w1 w2 w3 H1 H2. unfold same_clock in *. congruence. Qed.

#[global] Instance clock_forward_frame : Frame clock_forward.
Proof.
  split; [split| |]; unfold clock_forward; simpl; try done; try lia.
  - intros w. lia.
  - intros w1 w2 w3. lia.
Qed.

Lemma clock_forward_any_phase phase : tolerates clock_forward phase.
Proof. intros f Hf w. unfold clock_forward. simpl. lia. Qed.

Lemma same_clock_averages_cadence last_iter params i losses :
  preserves same_clock (averages_cadence last_iter params i losses).
Proof.
  unfold averages_cadence.
  apply preserves_bind; [apply _|done|]. intros avgs_intv.
  apply preserves_bind; [apply _|done|]. intros r.
  destruct ((r =? 0) && negb (i =? last_iter)); [|done].
  apply preserves_bind; [apply _|done|]. intros _.
  apply preserves_bind; [apply _| |].
  { apply preserves_bind; [apply _|done|]. intros mon.
    apply preserves_bind; [apply _|done|]. done. }
  intros avg_losses. apply preserves_bind; [apply _| |done].
  apply preserves_bind; [apply _|done|]. intros mon.
  apply preserves_bind; [apply _|done|]. done.
Qed.

Lemma same_clock_checkpoint_cadence last_iter params i :
  preserves same_clock (checkpoint_cadence last_iter params i).
Proof.
  unfold checkpoint_cadence.
  apply preserves_bind; [apply _|done|]. intros chkpt_intv.
  apply preserves_bind; [apply _|done|]. intros r.
  destruct ((r =? 0) && negb (i =? last_iter)); [|done].
  apply preserves_bind; [apply _|done|]. intros _.
  apply preserves_bind; [apply _|done|]. intros [z|dir]; [done|].
  apply preserves_bind; [apply _|done|]. done.
Qed.

Lemma train_step_clock env fuel sampler sample_spec mask_names start losses start' w w' evs :
  train_step env fuel sampler sample_spec mask_names start w = (Ok (losses, start'), w', evs) →
  ticks w' = S (S (ticks w)) ∧ start' = clock env (S (ticks w)).
Proof.
  unfold train_step.
  intros (sample & w1 & e1 & e2 & Hfetch & Hrun & ->)%bind_ok_inv.
  apply fetch_nonempty_sample_requests in Hfetch as (n & _ & _ & Ht & _).
  apply bind_ok_inv in Hrun
    as ([[inputs labels] masks] & w2 & e3 & e4 & (_ & -> & ->)%lift_ok_inv & Hrun & ->).
  apply bind_ok_inv in Hrun as (preds & w3 & e5 & e6 & Hfwd & Hrun & ->).
  unfold forward in Hfwd. injection Hfwd as <- <- <-.
  apply bind_ok_inv in Hrun
    as ([losses' nmsks] & w4 & e7 & e8 & (_ & -> & ->)%lift_ok_inv & Hrun & ->).
  apply bind_ok_inv in Hrun
    as ([] & w5 & e9 & e10 & (_ & -> & ->)%update_model_ok_inv & Hrun & ->).
  apply bind_ok_inv in Hrun
    as ([] & w6 & e11 & e12 & (-> & ->)%log_errors_ok_inv & Hrun & ->).
  cbn in Hrun. injection Hrun as <- <- <- <-. cbn. by rewrite Ht.
Qed.

Lemma validation_cadence_clock env fuel val_sampler params sample_spec i start start' w w' evs :
  validation_cadence env fuel val_sampler params sample_spec i start w = (Ok start', w', evs) →
  (start' = start ∧ w' = w)
  ∨ (val_sampler ≠ None ∧ (ticks w < ticks w')%nat ∧ start' = clock env (pred (ticks w'))).
Proof.
  unfold validation_cadence. destruct val_sampler as [vs|]; [|cbn; intros [= <- <- <-]; by left].
  intros (n & w1 & e1 & e2 & (_ & -> & ->)%lift_ok_inv & Hrun & ->)%bind_ok_inv.
  apply bind_ok_inv in Hrun as (r & w2 & e3 & e4 & (_ & -> & ->)%lift_ok_inv & Hrun & ->).
  destruct (r =? 0); [|cbn in Hrun; injection Hrun as <- <- <-; by left].
  apply bind_ok_inv in Hrun as (iters & w3 & e5 & e6 & (_ & -> & ->)%lift_ok_inv & Hrun & ->).
  apply bind_ok_inv in Hrun as ([] & w4 & e7 & e8 & Hval & Hrun & ->).
  unfold time_time in Hrun. injection Hrun as <- <- <-.
  pose proof (proj2 (confined_run_validation clock_forward (clock_forward_any_phase "test")
                       env fuel vs sample_spec i iters) w) as Hfw.
  rewrite Hval in Hfw. unfold clock_forward in Hfw. simpl in *.
  right. split_and!; [done|lia|done].
Qed.

(** X15: the start time that an iteration hands to the next one is the
    latest clock reading of the iteration: the reading that ends the training
    step or, when a validation ran, a reading taken after it.  Neither the
    report of the averages nor the checkpoint reads the clock.  With X14, the
    time logged for a training step is the span between two consecutive clock
    readings, so it never includes a validation. *)
Theorem train_iteration_clock (env : Env) (fuel sampler : nat) (val_sampler : option nat)
    (last_iter : Z) (params : gmap string pyval) (sample_spec : SampleSpec)
    (mask_names : list string) (i : Z) (start start' : Q) (w w' : World) (evs : list Event) :
  train_iteration env fuel sampler val_sampler last_iter params sample_spec mask_names
    i start w = (Ok start', w', evs) →
  (ticks w + 2 ≤ ticks w')%nat
  ∧ start' = clock env (pred (ticks w'))
  ∧ (val_sampler = None → ticks w' = (ticks w + 2)%nat).
Proof.
  unfold train_iteration.
  intros ([losses start1] & w1 & e1 & e2 & [Ht1 ->]%train_step_clock & Hrun & ->)%bind_ok_inv.
  apply bind_ok_inv in Hrun as (start2 & w2 & e3 & e4 & Hval%validation_cadence_clock & Hrun & ->).
  apply bind_ok_inv in Hrun as ([] & w3 & e5 & e6 & Havgs & Hrun & ->).
  apply bind_ok_inv in Hrun as ([] & w4 & e7 & e8 & Hchkpt & Hrun & ->).
  injection Hrun as <- <- <-.
  pose proof (same_clock_averages_cadence last_iter params i losses w2) as H3.
  pose proof (same_clock_checkpoint_cadence last_iter params i w3) as H4.
  rewrite Havgs in H3. rewrite Hchkpt in H4. unfold same_clock in *. simpl in *.
  rewrite H4, H3.
  destruct Hval as [[-> ->]|(Hsome & Hlt & ->)].
  - rewrite Ht1. split_and!; [lia|done|lia].
  - split_and!; [lia|done|done].
Qed.

Lemma train_iteration_clock_witness :
  ∃ start' w' evs,
    train_iteration Fixture.env 3 0 (Some 1%nat) 5 (Fixture.params 3 2 1 2 2) Fixture.spec
      ["label_mask"%string] 0 0%Q Fixture.world = (Ok start', w', evs)
    ∧ (ticks Fixture.world + 2 ≤ ticks w')%nat
    ∧ start' = clock Fixture.env (pred (ticks w')).
Proof.
  assert (∃ v, (train_iteration Fixture.env 3 0 (Some 1%nat) 5 (Fixture.params 3 2 1 2 2)
                  Fixture.spec ["label_mask"%string] 0 0%Q Fixture.world).1.1 = Ok v)
    as [start' Hr] by (vm_compute; by eexists).
  destruct (train_iteration Fixture.env 3 0 (Some 1%nat) 5 (Fixture.params 3 2 1 2 2)
              Fixture.spec ["label_mask"%string] 0 0%Q Fixture.world)
    as [[r w'] evs] eqn:Hrun.
  simpl in Hr. subst r. exists start', w', evs.
  destruct (train_iteration_clock _ _ _ _ _ _ _ _ _ _ _ _ _ _ Hrun) as (H1 & H2 & _).
  split; [reflexivity|]. split; [exact H1|exact H2].
Defined.
